(** * website_scanner.py: a shallow embedding and the properties of its checks

    The scanner fetches one page, runs a fixed battery of string and regular
    expression checks over the body and the response headers, and prints a
    report.  This file embeds the functions of [website_scanner.py] and proves
    the properties the specification states about them.

    Python values are modelled as follows.
    - [str] is a sequence of Unicode code points, [list N];
    - [float] is an IEEE 754 binary64 number, [spec_float] at precision 53;
    - a [dict] is an association list in insertion order (Python dictionaries
      iterate in insertion order, and the reporter relies on it);
    - a function that may raise returns a [result]: [Ok] with its value or
      [Raise] with the exception. *)

From Stdlib Require Import String Ascii.
From Stdlib Require Import NArith ZArith List Bool Lia.
From Stdlib Require Import Sorting.Permutation Sorting.Sorted.
From Stdlib Require Import Floats.SpecFloat.
Import ListNotations.

Set Implicit Arguments.

(** ** Python strings *)

Definition str := list N.

(** A string literal of the source, whose characters are all ASCII. *)
Definition lit (s : string) : str := map N_of_ascii (list_ascii_of_string s).
Arguments lit s%_string.

Module Str.

(** [a == b] *)
Fixpoint eqb (a b : str) : bool :=
  match a, b with
  | [], [] => true
  | x :: a', y :: b' => N.eqb x y && eqb a' b'
  | _, _ => false
  end.

(** [s.startswith(p)] *)
Fixpoint startswith (p s : str) : bool :=
  match p, s with
  | [], _ => true
  | _ :: _, [] => false
  | a :: p', b :: s' => N.eqb a b && startswith p' s'
  end.

(** [needle in s] *)
Fixpoint contains (needle s : str) : bool :=
  startswith needle s ||
  match s with
  | [] => false
  | _ :: s' => contains needle s'
  end.

(** [s.replace(old, new)]: the occurrences of [old] are taken from left to
    right without overlap; [skip] counts the characters of an occurrence
    that are still to be dropped. *)
Fixpoint replace_from (old new : str) (skip : nat) (s : str) : str :=
  match s with
  | [] => []
  | c :: s' =>
      match skip with
      | S k => replace_from old new k s'
      | O =>
          if startswith old s
          then new ++ replace_from old new (length old - 1) s'
          else c :: replace_from old new 0 s'
      end
  end.

Definition replace (old new s : str) : str :=
  match old with
  | [] => new ++ flat_map (fun c => c :: new) s
  | _ :: _ => replace_from old new 0 s
  end.

(** [s.lstrip(chars)], [s.rstrip(chars)] and [s.strip(chars)], the set of
    characters given as a predicate. *)
Fixpoint lstrip_by (f : N -> bool) (s : str) : str :=
  match s with
  | [] => []
  | c :: s' => if f c then lstrip_by f s' else s
  end.

Definition rstrip_by (f : N -> bool) (s : str) : str :=
  rev (lstrip_by f (rev s)).

Definition strip_by (f : N -> bool) (s : str) : str :=
  rstrip_by f (lstrip_by f s).

Definition in_range (lo hi c : N) : bool := N.leb lo c && N.leb c hi.

(** The code points Python counts as whitespace ([str.isspace], and [\s]
    in a [str] pattern). *)
Definition isspace (c : N) : bool :=
  in_range 9 13 c || in_range 28 32 c || N.eqb c 133 || N.eqb c 160
  || N.eqb c 5760 || in_range 8192 8202 c || N.eqb c 8232 || N.eqb c 8233
  || N.eqb c 8239 || N.eqb c 8287 || N.eqb c 12288.

(** [s.strip()] *)
Definition strip (s : str) : str := strip_by isspace s.

(** [s.strip("/")] and the like *)
Definition strip_chars (chars s : str) : str :=
  strip_by (fun c => existsb (N.eqb c) chars) s.

(** [s[:n]] *)
Definition slice_to (n : nat) (s : str) : str := firstn n s.

(** [str(n)] for a natural number: its decimal digits. *)
Fixpoint digits_of_uint (d : Decimal.uint) : str :=
  match d with
  | Decimal.Nil => []
  | Decimal.D0 d' => 48%N :: digits_of_uint d'
  | Decimal.D1 d' => 49%N :: digits_of_uint d'
  | Decimal.D2 d' => 50%N :: digits_of_uint d'
  | Decimal.D3 d' => 51%N :: digits_of_uint d'
  | Decimal.D4 d' => 52%N :: digits_of_uint d'
  | Decimal.D5 d' => 53%N :: digits_of_uint d'
  | Decimal.D6 d' => 54%N :: digits_of_uint d'
  | Decimal.D7 d' => 55%N :: digits_of_uint d'
  | Decimal.D8 d' => 56%N :: digits_of_uint d'
  | Decimal.D9 d' => 57%N :: digits_of_uint d'
  end.

Definition of_N (n : N) : str := digits_of_uint (N.to_uint n).
Definition of_nat (n : nat) : str := of_N (N.of_nat n).

(** [sep.join(l)] *)
Fixpoint join (sep : str) (l : list str) : str :=
  match l with
  | [] => []
  | [x] => x
  | x :: l' => x ++ sep ++ join sep l'
  end.

End Str.

(** ** Regular expressions, as Python's [re] module matches them

    Every pattern of the scanner is a sequence of single characters, of
    repetitions of one character class, and of groups that capture; the
    syntax below has these forms.  Matching is by backtracking: a greedy
    repetition tries the longest run first, a lazy one the shortest, and
    the first way that lets the rest of the pattern match is the match. *)

Module Re.

Inductive regex : Type :=
| Eps
| Chr (f : N -> bool)
| Seq (r1 r2 : regex)
| Rep (greedy : bool) (lo : nat) (f : N -> bool)
| Grp (r : regex).

(** [f{lo,}] (greedy) or [f{lo,}?] (lazy) at [s], then the continuation. *)
Fixpoint rep {R} (greedy : bool) (f : N -> bool) (lo : nat) (s : str)
    (k : str -> option R) {struct s} : option R :=
  match lo with
  | S lo' =>
      match s with
      | c :: s' => if f c then rep greedy f lo' s' k else None
      | [] => None
      end
  | O =>
      match s with
      | c :: s' =>
          if f c then
            if greedy then
              match rep greedy f 0 s' k with
              | Some x => Some x
              | None => k s
              end
            else
              match k s with
              | Some x => Some x
              | None => rep greedy f 0 s' k
              end
          else k s
      | [] => k s
      end
  end.

(** [exec r s g k]: match [r] at the head of [s], the groups closed so far
    being [g], and hand the rest of the input to [k]. *)
Fixpoint exec {R} (r : regex) (s : str) (g : list str)
    (k : str -> list str -> option R) : option R :=
  match r with
  | Eps => k s g
  | Chr f =>
      match s with
      | c :: s' => if f c then k s' g else None
      | [] => None
      end
  | Seq a b => exec a s g (fun s' g' => exec b s' g' k)
  | Rep greedy lo f => rep greedy f lo s (fun s' => k s' g)
  | Grp a =>
      exec a s g
        (fun s' g' => k s' (g' ++ [firstn (length s - length s') s]))
  end.

(** A match object: the text matched, [m.group(0)], and the groups. *)
Record rmatch : Type := { whole : str; groups : list str }.

(** [pattern.match(s)]: a match at the head of [s]. *)
Definition match_at (r : regex) (s : str) : option rmatch :=
  exec r s []
    (fun s' g => Some {| whole := firstn (length s - length s') s;
                         groups := g |}).

(** [re.search(r, s)]: the leftmost match. *)
Fixpoint search (r : regex) (s : str) : option rmatch :=
  match match_at r s with
  | Some m => Some m
  | None =>
      match s with
      | [] => None
      | _ :: s' => search r s'
      end
  end.

(** The matches of [re.finditer(r, s)]: leftmost first, without overlap.
    [skip] counts the characters of the last match still to be passed.
    No pattern of the scanner matches the empty string, so the special
    treatment Python gives to empty matches is not modelled. *)
Fixpoint finditer_from (r : regex) (skip : nat) (s : str) : list rmatch :=
  match s with
  | [] => []
  | _ :: s' =>
      match skip with
      | S k => finditer_from r k s'
      | O =>
          match match_at r s with
          | Some m => m :: finditer_from r (length (whole m) - 1) s'
          | None => finditer_from r 0 s'
          end
      end
  end.

Definition finditer (r : regex) (s : str) : list rmatch :=
  finditer_from r 0 s.

(** [re.findall(r, s)]: the text of group 1 when the pattern has a group,
    the whole match otherwise. *)
Definition findall (r : regex) (s : str) : list str :=
  map (fun m => match groups m with
                | [] => whole m
                | g :: _ => g
                end) (finditer r s).

(** [re.sub(r, repl, s)] for a replacement without back references. *)
Fixpoint sub_from (r : regex) (repl : str) (skip : nat) (s : str) : str :=
  match s with
  | [] => []
  | c :: s' =>
      match skip with
      | S k => sub_from r repl k s'
      | O =>
          match match_at r s with
          | Some m => repl ++ sub_from r repl (length (whole m) - 1) s'
          | None => c :: sub_from r repl 0 s'
          end
      end
  end.

Definition sub (r : regex) (repl s : str) : str := sub_from r repl 0 s.

(** *** Character classes *)

Definition only (c : N) : N -> bool := N.eqb c.
Definition except (c : N) : N -> bool := fun x => negb (N.eqb c x).
Definition oneof (cs : str) : N -> bool := fun x => existsb (N.eqb x) cs.
Definition noneof (cs : str) : N -> bool := fun x => negb (existsb (N.eqb x) cs).
(** [.] under [re.DOTALL] *)
Definition any : N -> bool := fun _ => true.

(** A literal character under [re.IGNORECASE].  For a lower-case ASCII
    letter [c] the characters that match are [c], its upper-case form, and
    the four non-ASCII letters whose case mapping meets ASCII:
    U+0130 and U+0131 for i, U+017F for s, U+212A for k.  A character
    without case matches itself only. *)
Definition is_ci (c : N) : N -> bool :=
  fun x =>
    N.eqb c x
    || (Str.in_range 97 122 c && N.eqb x (c - 32))
    || (N.eqb c 105 && (N.eqb x 304 || N.eqb x 305))
    || (N.eqb c 115 && N.eqb x 383)
    || (N.eqb c 107 && N.eqb x 8490).

(** A literal word, character by character. *)
Definition word (s : str) : regex :=
  fold_right (fun c r => Seq (Chr (only c)) r) Eps s.

Definition word_ci (s : str) : regex :=
  fold_right (fun c r => Seq (Chr (is_ci c)) r) Eps s.

(** A sequence of patterns. *)
Definition cat (rs : list regex) : regex := fold_right Seq Eps rs.

End Re.

(** ** Exceptions

    A computation that may raise returns [Raise e]; [try_except] is the
    statement [try: ... except Exception: ...], and every exception of the
    model is an instance of Python's [Exception]. *)

Inductive exn : Type :=
| ZeroDivisionError
| OverflowError
| ValueError
| IndexError
| TypeError
| AttributeError
| HTTPError (code : Z)
| URLError
| TimeoutError
| SSLError.

Inductive result (A : Type) : Type :=
| Ok (a : A)
| Raise (e : exn).

Arguments Ok {A} a.
Arguments Raise {A} e.

Definition bind {A B} (m : result A) (f : A -> result B) : result B :=
  match m with
  | Ok a => f a
  | Raise e => Raise e
  end.

Definition try_except {A} (body : result A) (handler : exn -> result A)
    : result A :=
  match body with
  | Ok a => Ok a
  | Raise e => handler e
  end.

Notation "x <- m ;; k" := (bind m (fun x => k))
  (at level 61, m at next level, right associativity).

(** ** Dictionaries *)

Section Dict.
Variable V : Type.

Definition dict := list (str * V).

(** [d.get(k)] *)
Fixpoint dict_get (k : str) (d : dict) : option V :=
  match d with
  | [] => None
  | (k', v) :: d' => if Str.eqb k k' then Some v else dict_get k d'
  end.

(** [k in d] *)
Definition dict_mem (k : str) (d : dict) : bool :=
  match dict_get k d with
  | Some _ => true
  | None => false
  end.

(** [d[k] = v]: a key already present keeps its place. *)
Fixpoint dict_set (k : str) (v : V) (d : dict) : dict :=
  match d with
  | [] => [(k, v)]
  | (k', v') :: d' =>
      if Str.eqb k k' then (k', v) :: d' else (k', v') :: dict_set k v d'
  end.

(** [d.update(other)] *)
Definition dict_update (d other : dict) : dict :=
  fold_left (fun acc kv => dict_set (fst kv) (snd kv) acc) other d.

(** [{k: v for k, v in d.items() if f(v)}] *)
Definition dict_filter (f : V -> bool) (d : dict) : dict :=
  filter (fun kv => f (snd kv)) d.

Definition keys (d : dict) : list str := map fst d.
End Dict.

(** ** Python floats

    A [float] is a binary64 number.  The arithmetic is that of the
    specification of IEEE 754 in the standard library: every operation
    rounds its exact result to the nearest float, ties to even. *)

Module Float.

Definition prec : Z := 53.
Definition emax : Z := 1024.
Definition float := spec_float.

(** The float nearest to the quotient [a / b] of two positive integers. *)
Definition nearest (neg : bool) (a b : Z) : float :=
  let '(mz, ez, lz) := SFdiv_core_binary prec emax a 0 b 0 in
  binary_round_aux prec emax neg mz ez lz.

(** The float of an integer: the literals [2.0] and [3.0] of the source,
    and [100] where it multiplies a float. *)
Definition of_Z (n : Z) : float := binary_normalize prec emax n 0 false.

(** [a / b] on two [int]s: true division, the quotient correctly
    rounded. *)
Definition int_truediv (a b : Z) : result float :=
  if (b =? 0)%Z then Raise ZeroDivisionError
  else
    let neg := xorb (a <? 0)%Z (b <? 0)%Z in
    if (a =? 0)%Z then Ok (S754_zero neg)
    else
      match nearest neg (Z.abs a) (Z.abs b) with
      | S754_infinity _ => Raise OverflowError
      | x => Ok x
      end.

(** [x * y] *)
Definition mul (x y : float) : float := SFmul prec emax x y.

(** [x < y] *)
Definition ltb (x y : float) : bool := SFltb x y.

(** [int(x)]: truncation toward zero. *)
Definition to_int (x : float) : result Z :=
  match x with
  | S754_nan => Raise ValueError
  | S754_infinity _ => Raise OverflowError
  | S754_zero _ => Ok 0%Z
  | S754_finite s m e =>
      let a := match e with
               | Zneg p => Z.shiftr (Zpos m) (Zpos p)
               | _ => Z.shiftl (Zpos m) e
               end in
      Ok (if s then Z.opp a else a)
  end.

(** The exact value of a finite float as a fraction. *)
Definition fraction (m : positive) (e : Z) : Z * Z :=
  match e with
  | Zneg p => (Zpos m, Z.pow 2 (Zpos p))
  | _ => (Z.shiftl (Zpos m) e, 1%Z)
  end.

(** The integer nearest to [a / b], ties to even. *)
Definition nearest_int (a b : Z) : Z :=
  let q := (a / b)%Z in
  let r := (a mod b)%Z in
  match (2 * r ?= b)%Z with
  | Lt => q
  | Gt => (q + 1)%Z
  | Eq => if Z.even q then q else (q + 1)%Z
  end.

(** [round(x, 2)]: the exact value is rounded to two decimals, ties to
    even, and the decimal is read back as a float. *)
Definition round2 (x : float) : float :=
  match x with
  | S754_finite s m e =>
      let '(a, b) := fraction m e in
      let k := nearest_int (100 * a) b in
      if (k =? 0)%Z then S754_zero s else nearest s k 100
  | _ => x
  end.

(** *** [repr(x)]: the shortest decimal that reads back as [x] *)

(** [a / b < 10 ^ p] *)
Definition below_pow10 (a b p : Z) : bool :=
  match p with
  | Zneg q => (a * Z.pow 10 (Zpos q) <? b)%Z
  | _ => (a <? b * Z.pow 10 p)%Z
  end.

(** The least [p] from [p0] on with [a / b < 10 ^ p]. *)
Fixpoint decimal_point (fuel : nat) (a b p0 : Z) : Z :=
  match fuel with
  | O => p0
  | S fuel' =>
      if below_pow10 a b p0 then p0
      else decimal_point fuel' a b (p0 + 1)%Z
  end.

(** A position not above the decimal point of [a / b]: the quotient is at
    least [2 ^ l] for [l] the difference of the bit lengths less one, and
    [0.30103] is just above the decimal logarithm of 2. *)
Definition first_guess (a b : Z) : Z :=
  ((Z.log2 a - Z.log2 b - 1) * 30103 / 100000 - 2)%Z.

(** [d * 10 ^ k] as a fraction. *)
Definition scaled (d k : Z) : Z * Z :=
  match k with
  | Zneg q => (d, Z.pow 10 (Zpos q))
  | _ => (d * Z.pow 10 k, 1)%Z
  end.

Definition float_eqb (x y : float) : bool :=
  match x, y with
  | S754_finite s1 m1 e1, S754_finite s2 m2 e2 =>
      Bool.eqb s1 s2 && Pos.eqb m1 m2 && Z.eqb e1 e2
  | _, _ => false
  end.

(** Does the decimal [d * 10 ^ k] read back as the float [m * 2 ^ e]? *)
Definition reads_back (m : positive) (e : Z) (d k : Z) : bool :=
  (0 <? d)%Z &&
  let '(a, b) := scaled d k in
  float_eqb (nearest false a b) (S754_finite false m e).

(** The decimals of [n] digits next to [m * 2 ^ e], below and above, and
    the one that reads back (the nearer when both do). *)
Definition candidate (m : positive) (e : Z) (p : Z) (n : Z) : option (Z * Z) :=
  let '(a, b) := fraction m e in
  let k := (p - n)%Z in
  let '(a', b') := match k with
                   | Zneg q => (a * Z.pow 10 (Zpos q), b)%Z
                   | _ => (a, b * Z.pow 10 k)%Z
                   end in
  let lo := (a' / b')%Z in
  let hi := (lo + 1)%Z in
  let r := (a' mod b')%Z in
  match reads_back m e lo k, reads_back m e hi k with
  | true, true => if (2 * r <=? b')%Z then Some (lo, k) else Some (hi, k)
  | true, false => Some (lo, k)
  | false, true => Some (hi, k)
  | false, false => None
  end.

(** The first length, from [n] on, at which a decimal reads back. *)
Fixpoint shortest (fuel : nat) (m : positive) (e : Z) (p : Z) (n : Z)
    : Z * Z :=
  match fuel with
  | O => (fst (fraction m e) / snd (fraction m e), 0)%Z
  | S fuel' =>
      match candidate m e p n with
      | Some dk => dk
      | None => shortest fuel' m e p (n + 1)%Z
      end
  end.

Definition zeros (n : Z) : str := repeat 48%N (Z.to_nat n).

Fixpoint rstrip_zeros_rev (s : str) : str :=
  match s with
  | 48%N :: s' => rstrip_zeros_rev s'
  | _ => s
  end.

(** The digits of [d] without the zeros at the end, and how many digits
    [d] has. *)
Definition digits (d : Z) : str * Z :=
  let ds := Str.of_N (Z.to_N d) in
  (rev (rstrip_zeros_rev (rev ds)), Z.of_nat (length ds)).

Definition exponent (x : Z) : str :=
  let a := Str.of_N (Z.to_N (Z.abs x)) in
  (if (x <? 0)%Z then [45%N] else [43%N])
  ++ (if (Z.abs x <? 10)%Z then 48%N :: a else a).

Definition repr_finite (m : positive) (e : Z) : str :=
  let '(a, b) := fraction m e in
  let p := decimal_point 10 a b (first_guess a b) in
  let '(d, k) := shortest 17 m e p 1 in
  let '(ds, len) := digits d in
  let decpt := (k + len)%Z in
  let n := Z.of_nat (length ds) in
  if ((decpt <=? -4) || (16 <? decpt))%Z then
    match ds with
    | [] => []
    | d1 :: rest =>
        d1 :: (match rest with [] => [] | _ => 46%N :: rest end)
        ++ [101%N] ++ exponent (decpt - 1)
    end
  else if (decpt <=? 0)%Z then
    [48%N; 46%N] ++ zeros (- decpt) ++ ds
  else if (n <=? decpt)%Z then
    ds ++ zeros (decpt - n) ++ [46%N; 48%N]
  else
    firstn (Z.to_nat decpt) ds ++ [46%N] ++ skipn (Z.to_nat decpt) ds.

Definition repr (x : float) : str :=
  match x with
  | S754_nan => [110; 97; 110]%N
  | S754_infinity s => (if s then [45%N] else []) ++ [105; 110; 102]%N
  | S754_zero s => (if s then [45%N] else []) ++ [48; 46; 48]%N
  | S754_finite s m e => (if s then [45%N] else []) ++ repr_finite m e
  end.

End Float.

(** ** The result of one check *)

Inductive Impact : Type := critical | high | medium | low.
Inductive Category : Type := security | seo | performance | compliance.

(** The dictionary a check module stores under the name of a check.  The
    security checks store no ["detail"] key, and the reporter reads the key
    with [get]: the absent key and [None] are both [None] here. *)
Record check : Type := {
  pass : bool;
  impact : Impact;
  category : Category;
  detail : option str
}.

Definition results := dict check.

(** The double and the single quote, written [dq] and [sq] in the patterns
    quoted below, and the closing angle bracket. *)
Definition dq : N := 34.
Definition sq : N := 39.
Definition gt : N := 62.
Definition quoted (q : N) (s : str) : str := q :: s ++ [q].

(** *** The patterns of the scanner *)

(** [<script[^>]*src=[dq sq]http://] *)
Definition script_http_re : Re.regex :=
  Re.cat [Re.word (lit "<script"); Re.Rep true 0 (Re.except gt);
          Re.word (lit "src="); Re.Chr (Re.oneof [dq; sq]);
          Re.word (lit "http://")].

(** [<title[^>]*>(.*?)</title>] with [re.IGNORECASE | re.DOTALL] *)
Definition title_re : Re.regex :=
  Re.cat [Re.word_ci (lit "<title"); Re.Rep true 0 (Re.except gt);
          Re.Chr (Re.only gt); Re.Grp (Re.Rep false 0 Re.any);
          Re.word_ci (lit "</title>")].

(** [<[^>]+>] *)
Definition tag_re : Re.regex :=
  Re.cat [Re.Chr (Re.only 60); Re.Rep true 1 (Re.except gt);
          Re.Chr (Re.only gt)].

(** [<meta[^>]+name=[dq sq]description[dq sq][^>]+content=[dq sq](G)[dq sq]]
    with [re.IGNORECASE], the group [G] being [[^dq sq]] repeated, greedy. *)
Definition meta_description_re : Re.regex :=
  Re.cat [Re.word_ci (lit "<meta"); Re.Rep true 1 (Re.except gt);
          Re.word_ci (lit "name="); Re.Chr (Re.oneof [dq; sq]);
          Re.word_ci (lit "description"); Re.Chr (Re.oneof [dq; sq]);
          Re.Rep true 1 (Re.except gt); Re.word_ci (lit "content=");
          Re.Chr (Re.oneof [dq; sq]);
          Re.Grp (Re.Rep true 0 (Re.noneof [dq; sq]));
          Re.Chr (Re.oneof [dq; sq])].

(** [<h1[^>]*>(.*?)</h1>] with [re.IGNORECASE | re.DOTALL] *)
Definition h1_re : Re.regex :=
  Re.cat [Re.word_ci (lit "<h1"); Re.Rep true 0 (Re.except gt);
          Re.Chr (Re.only gt); Re.Grp (Re.Rep false 0 Re.any);
          Re.word_ci (lit "</h1>")].

(** [rel=[dq sq]canonical[dq sq]] with [re.IGNORECASE] *)
Definition canonical_re : Re.regex :=
  Re.cat [Re.word_ci (lit "rel="); Re.Chr (Re.oneof [dq; sq]);
          Re.word_ci (lit "canonical"); Re.Chr (Re.oneof [dq; sq])].

(** [<img[^>]+>] with [re.IGNORECASE] *)
Definition img_re : Re.regex :=
  Re.cat [Re.word_ci (lit "<img"); Re.Rep true 1 (Re.except gt);
          Re.Chr (Re.only gt)].

(** [alt=[dq sq][^dq sq]+[dq sq]] with [re.IGNORECASE] *)
Definition alt_re : Re.regex :=
  Re.cat [Re.word_ci (lit "alt="); Re.Chr (Re.oneof [dq; sq]);
          Re.Rep true 1 (Re.noneof [dq; sq]); Re.Chr (Re.oneof [dq; sq])].

(** [\n\s{10,}] *)
Definition long_whitespace_re : Re.regex :=
  Re.cat [Re.Chr (Re.only 10); Re.Rep true 10 Str.isspace].

(** The operations below are applied by the source to values that may be
    [None]; applied to [None] they raise, as Python does. *)

(** [bool(x)] for [x] a match object or [None] *)
Definition truthy {A} (x : option A) : bool :=
  match x with
  | Some _ => true
  | None => false
  end.

(** [not s] for [s] a string or [None] *)
Definition falsy (s : option str) : bool :=
  match s with
  | None | Some [] => true
  | Some (_ :: _) => false
  end.

(** [m.group(1)] *)
Definition group1 (m : option Re.rmatch) : result str :=
  match m with
  | None => Raise AttributeError
  | Some m =>
      match Re.groups m with
      | g :: _ => Ok g
      | [] => Raise IndexError
      end
  end.

(** [len(s)] *)
Definition len (s : option str) : result nat :=
  match s with
  | Some s => Ok (length s)
  | None => Raise TypeError
  end.

(** [s[:n]] *)
Definition slice_to (n : nat) (s : option str) : result str :=
  match s with
  | Some s => Ok (Str.slice_to n s)
  | None => Raise TypeError
  end.

(** [l[0]] *)
Definition first {A} (l : list A) : result A :=
  match l with
  | x :: _ => Ok x
  | [] => Raise IndexError
  end.

(** ** The response of a fetch *)

Record response : Type := {
  status : Z;
  (** [r.headers.items()] *)
  headers : list (str * str);
  (** [r.read().decode("utf-8", errors="ignore")] *)
  text : str
}.

(** ** The scanner *)

Definition IMPACT_ORDER (i : Impact) : nat :=
  match i with
  | critical => 0
  | high => 1
  | medium => 2
  | low => 3
  end.

Definition categories : list Category :=
  [security; seo; performance; compliance].

Definition category_eqb (a b : Category) : bool :=
  match a, b with
  | security, security | seo, seo
  | performance, performance | compliance, compliance => true
  | _, _ => false
  end.

(** [sorted(l, key=key)]: a stable sort, by insertion. *)
Section Sorted.
Variable A : Type.
Variable key : A -> nat.

Fixpoint insert_by (x : A) (l : list A) : list A :=
  match l with
  | [] => [x]
  | y :: l' =>
      if (key x <=? key y)%nat then x :: y :: l' else y :: insert_by x l'
  end.

Definition sorted_by (l : list A) : list A :=
  fold_right insert_by [] l.

End Sorted.

(** What [print_report] writes, section by section. *)
Record report : Type := {
  score : Z;
  verdict : str;
  (** the bar of each category that has a check, with its percentage *)
  cat_scores : list (Category * Z);
  (** ISSUES FOUND: per category, the failed checks in the order printed *)
  issues : list (Category * list (str * check));
  (** PASSING: per category, the names of the passed checks *)
  passing : list (Category * list str)
}.

Definition verdict_excellent : str :=
  128994%N :: lit " Excellent " ++ 8212%N :: lit " well-built site".
Definition verdict_good : str :=
  128993%N :: lit " Good " ++ 8212%N :: lit " a few things to fix".
Definition verdict_needs_work : str :=
  128992%N :: lit " Needs work " ++ 8212%N :: lit " multiple issues detected".
Definition verdict_critical : str :=
  128308%N :: lit " Critical " ++ 8212%N :: lit " significant problems found".

(** The verdict line for a score. *)
Definition verdict_of (score : Z) : str :=
  if (85 <=? score)%Z then verdict_excellent
  else if (65 <=? score)%Z then verdict_good
  else if (45 <=? score)%Z then verdict_needs_work
  else verdict_critical.

(** [int((passed / total) * 100)] *)
Definition percentage (passed total : nat) : result Z :=
  q <- Float.int_truediv (Z.of_nat passed) (Z.of_nat total) ;;
  Float.to_int (Float.mul q (Float.of_Z 100)).

(** How a process that ran [main] ended. *)
Inductive outcome : Type :=
| Exit (code : Z)
| Reported (r : report).

Section Scanner.

(** [str.lower], whose Unicode tables are Python's. *)
Variable lower : str -> str.

(** [urllib.request.urlopen] on a URL with a timeout in seconds: the
    response once it is read, or the exception that the fetch or the
    reading raises. *)
Variable urlopen : str -> Z -> result response.

Definition fetch_url (url : str) (timeout : Z) : result response :=
  urlopen url timeout.

Definition security_headers : list (str * (str * Impact)) :=
  [ (lit "strict-transport-security", (lit "HSTS", high));
    (lit "x-content-type-options", (lit "X-Content-Type-Options", medium));
    (lit "x-frame-options", (lit "X-Frame-Options", medium));
    (lit "content-security-policy", (lit "CSP", high));
    (lit "referrer-policy", (lit "Referrer-Policy", low));
    (lit "permissions-policy", (lit "Permissions-Policy", low)) ].

Definition check_security (url html : str) (hdrs : dict str)
    : result results :=
  let results : results := [] in
  let results :=
    fold_left
      (fun results '(header, (label, impact)) =>
         dict_set label
           {| pass := dict_mem header hdrs;
              impact := impact;
              category := security;
              detail := None |} results)
      security_headers results in
  let results :=
    dict_set (lit "HTTPS/SSL")
      {| pass := Str.startswith (lit "https://") url;
         impact := critical;
         category := security;
         detail := None |} results in
  let results :=
    dict_set (lit "No mixed content")
      {| pass := negb (Str.contains (lit "http://")
                         (Re.sub script_http_re [] html));
         impact := high;
         category := security;
         detail := None |} results in
  Ok results.

Definition check_seo (html url : str) : result results :=
  let results : results := [] in
  (* Title *)
  let title_match := Re.search title_re html in
  title <-
    (if truthy title_match then
       g <- group1 title_match ;;
       Ok (Some (Str.strip (Re.sub tag_re [] g)))
     else Ok None) ;;
  results <-
    (if falsy title then
       Ok (dict_set (lit "Title tag")
             {| pass := false; impact := critical; category := seo;
                detail := Some (lit "Missing") |} results)
     else
       n <- len title ;;
       if ((n <? 30) || (60 <? n))%nat then
         Ok (dict_set (lit "Title tag")
               {| pass := false; impact := high; category := seo;
                  detail := Some (Str.of_nat n
                                  ++ lit " chars (target: 30-60)") |}
               results)
       else
         preview <- slice_to 50 title ;;
         Ok (dict_set (lit "Title tag")
               {| pass := true; impact := critical; category := seo;
                  detail := Some preview |} results)) ;;
  (* Meta description *)
  let desc_match := Re.search meta_description_re html in
  desc <-
    (if truthy desc_match then g <- group1 desc_match ;; Ok (Some g)
     else Ok None) ;;
  results <-
    (if falsy desc then
       Ok (dict_set (lit "Meta description")
             {| pass := false; impact := high; category := seo;
                detail := Some (lit "Missing") |} results)
     else
       n <- len desc ;;
       if ((n <? 70) || (160 <? n))%nat then
         Ok (dict_set (lit "Meta description")
               {| pass := false; impact := medium; category := seo;
                  detail := Some (Str.of_nat n
                                  ++ lit " chars (target: 70-160)") |}
               results)
       else
         Ok (dict_set (lit "Meta description")
               {| pass := true; impact := high; category := seo;
                  detail := Some (Str.of_nat n
                                  ++ lit " chars " ++ [10003%N]) |}
               results)) ;;
  (* H1 *)
  let h1s := Re.findall h1_re html in
  let h1s := map (fun h => Str.strip (Re.sub tag_re [] h)) h1s in
  results <-
    (if (length h1s =? 0)%nat then
       Ok (dict_set (lit "H1 tag")
             {| pass := false; impact := critical; category := seo;
                detail := Some (lit "Missing") |} results)
     else if (1 <? length h1s)%nat then
       Ok (dict_set (lit "H1 tag")
             {| pass := false; impact := high; category := seo;
                detail := Some (Str.of_nat (length h1s)
                                ++ lit " H1s found (should be 1)") |}
             results)
     else
       h <- first h1s ;;
       Ok (dict_set (lit "H1 tag")
             {| pass := true; impact := critical; category := seo;
                detail := Some (Str.slice_to 50 h) |} results)) ;;
  (* Canonical *)
  let has_canonical := truthy (Re.search canonical_re html) in
  let results :=
    dict_set (lit "Canonical tag")
      {| pass := has_canonical; impact := high; category := seo;
         detail := None |} results in
  (* Schema *)
  let has_schema := Str.contains (lit "application/ld+json") html in
  let results :=
    dict_set (lit "Schema markup")
      {| pass := has_schema; impact := high; category := seo;
         detail := None |} results in
  (* OG tags *)
  let has_og :=
    Str.contains (lit "property=" ++ quoted dq (lit "og:title"))
      (lower html)
    || Str.contains (lit "property=" ++ quoted sq (lit "og:title"))
         (lower html) in
  let results :=
    dict_set (lit "Open Graph tags")
      {| pass := has_og; impact := medium; category := seo;
         detail := None |} results in
  Ok results.

Definition check_performance (load_time : Float.float) (html : str)
    : result results :=
  let results : results := [] in
  let results :=
    dict_set (lit "Load time (<2s)")
      {| pass := Float.ltb load_time (Float.of_Z 2);
         impact := high;
         category := performance;
         detail := Some (Float.repr load_time ++ lit "s") |} results in
  let results :=
    dict_set (lit "Load time (<3s)")
      {| pass := Float.ltb load_time (Float.of_Z 3);
         impact := critical;
         category := performance;
         detail := Some (Float.repr load_time ++ lit "s") |} results in
  (* Viewport *)
  let has_viewport :=
    Str.contains (lit "name=" ++ quoted dq (lit "viewport")) (lower html)
    || Str.contains (lit "name=" ++ quoted sq (lit "viewport"))
         (lower html) in
  let results :=
    dict_set (lit "Mobile viewport")
      {| pass := has_viewport; impact := high; category := performance;
         detail := None |} results in
  (* Image alt text *)
  let imgs := Re.findall img_re html in
  let missing_alt :=
    length (filter (fun img => negb (truthy (Re.search alt_re img))) imgs) in
  let results :=
    if negb (length imgs =? 0)%nat then
      dict_set (lit "Image alt text")
        {| pass := (missing_alt =? 0)%nat;
           impact := medium;
           category := performance;
           detail :=
             Some (if negb (missing_alt =? 0)%nat
                   then Str.of_nat missing_alt ++ lit "/"
                        ++ Str.of_nat (length imgs) ++ lit " missing alt"
                   else lit "All " ++ Str.of_nat (length imgs)
                        ++ lit " have alt text") |} results
    else results in
  (* Minification hint (rough check) *)
  let long_whitespace := length (Re.findall long_whitespace_re html) in
  let results :=
    dict_set (lit "HTML not bloated")
      {| pass := (long_whitespace <? 50)%nat;
         impact := low;
         category := performance;
         detail := None |} results in
  Ok results.

(** [any(x in s for x in needles)] *)
Definition any_in (needles : list str) (s : str) : bool :=
  existsb (fun x => Str.contains x s) needles.

Definition check_compliance (html url : str) : result results :=
  let results : results := [] in
  let html_lower := lower html in
  (* Privacy policy *)
  let has_privacy :=
    any_in [lit "privacy policy"; lit "privacy-policy"; lit "/privacy";
            lit "gdpr"; lit "data protection"] html_lower in
  let results :=
    dict_set (lit "Privacy policy")
      {| pass := has_privacy; impact := high; category := compliance;
         detail := None |} results in
  (* Cookie notice *)
  let has_cookie :=
    any_in [lit "cookie"; lit "consent"; lit "gdpr"; lit "we use cookies"]
      html_lower in
  let results :=
    dict_set (lit "Cookie notice")
      {| pass := has_cookie; impact := medium; category := compliance;
         detail := None |} results in
  (* Terms of service *)
  let has_terms :=
    any_in [lit "terms of service"; lit "terms and conditions";
            lit "/terms"; lit "terms of use"] html_lower in
  let results :=
    dict_set (lit "Terms of service")
      {| pass := has_terms; impact := medium; category := compliance;
         detail := None |} results in
  (* Contact info *)
  let has_contact :=
    any_in [lit "contact"; lit "email"; lit "@"; lit "mailto:"]
      html_lower in
  let results :=
    dict_set (lit "Contact info")
      {| pass := has_contact; impact := low; category := compliance;
         detail := None |} results in
  Ok results.

Definition probes : list (str * str * Impact) :=
  [ (lit "/robots.txt", lit "robots.txt", medium);
    (lit "/sitemap.xml", lit "sitemap.xml", high) ].

Definition check_infra (domain base_url : str) : result results :=
  fold_left
    (fun (acc : result results) '(path, label, impact) =>
       results <- acc ;;
       try_except
         (r <- fetch_url (base_url ++ path) 8 ;;
          Ok (dict_set label
                {| pass := (status r =? 200)%Z; impact := impact;
                   category := seo; detail := None |} results))
         (fun _ =>
            Ok (dict_set label
                  {| pass := false; impact := impact;
                     category := seo; detail := None |} results)))
    probes (Ok []).

(** The checks of one category, in the order of the dictionary. *)
Definition in_category (cat : Category) (d : results) : results :=
  filter (fun kv => category_eqb (category (snd kv)) cat) d.

Definition impact_key (kv : str * check) : nat :=
  IMPACT_ORDER (impact (snd kv)).

Definition print_report (domain : str) (all_checks : results)
    (load_time : Float.float) : result report :=
  let passed := dict_filter pass all_checks in
  let failed := dict_filter (fun v => negb (pass v)) all_checks in
  let total := length all_checks in
  score <- percentage (length passed) total ;;
  (* Category scores *)
  cat_scores <-
    fold_left
      (fun (acc : result (list (Category * Z))) cat =>
         cat_scores <- acc ;;
         let cat_checks := in_category cat all_checks in
         if negb (length cat_checks =? 0)%nat then
           let cat_pass := length (filter (fun kv => pass (snd kv)) cat_checks) in
           p <- percentage cat_pass (length cat_checks) ;;
           Ok (cat_scores ++ [(cat, p)])
         else Ok cat_scores)
      categories (Ok []) ;;
  let verdict := verdict_of score in
  (* Failed checks by category *)
  let issues :=
    if negb (length failed =? 0)%nat then
      flat_map
        (fun cat =>
           let cat_failed := in_category cat failed in
           if (length cat_failed =? 0)%nat then []
           else [(cat, sorted_by impact_key cat_failed)])
        categories
    else [] in
  (* Passed checks *)
  let passing :=
    flat_map
      (fun cat =>
         let cat_passed := keys (in_category cat passed) in
         if negb (length cat_passed =? 0)%nat then [(cat, cat_passed)]
         else [])
      categories in
  Ok {| score := score; verdict := verdict; cat_scores := cat_scores;
        issues := issues; passing := passing |}.

(** [sys.argv] is [argv]; [elapsed] is the value of
    [(datetime.now() - start).total_seconds()] once the page is there. *)
Definition main (argv : list str) (elapsed : Float.float)
    : result outcome :=
  match argv with
  | [] | [_] => Ok (Exit 1)
  | _ :: arg :: _ =>
      let domain :=
        Str.strip_chars (lit "/")
          (Str.replace (lit "http://") []
             (Str.replace (lit "https://") [] arg)) in
      let base_url := lit "https://" ++ domain in
      match fetch_url base_url 12 with
      | Raise _ => Ok (Exit 1)
      | Ok r =>
          let load_time := Float.round2 elapsed in
          let html := text r in
          let resp_headers : dict str :=
            fold_left (fun d kv => dict_set (lower (fst kv)) (snd kv) d)
              (headers r) [] in
          let all_checks : results := [] in
          c <- check_security base_url html resp_headers ;;
          let all_checks := dict_update all_checks c in
          c <- check_seo html base_url ;;
          let all_checks := dict_update all_checks c in
          c <- check_performance load_time html ;;
          let all_checks := dict_update all_checks c in
          c <- check_compliance html base_url ;;
          let all_checks := dict_update all_checks c in
          c <- check_infra domain base_url ;;
          let all_checks := dict_update all_checks c in
          r <- print_report domain all_checks load_time ;;
          Ok (Reported r)
      end
  end.

End Scanner.

(** Lower-casing of the ASCII letters only: what [str.lower] does on a
    text that is all ASCII. *)
Definition ascii_lower (s : str) : str :=
  map (fun c => if Str.in_range 65 90 c then (c + 32)%N else c) s.

(** ** The specification's words

    Three operations as the specification words them, to compare with
    what the code does. *)

(** [round(100 * passed / total)], the quotient exact. *)
Definition rounded_percentage (passed total : nat) : Z :=
  Float.nearest_int (100 * Z.of_nat passed) (Z.of_nat total).

(** A script tag that loads over HTTP, whole, from [<script] to its closing
    bracket: [<script[^>]*src=[dq sq]http://[^>]*>]. *)
Definition script_http_tag_re : Re.regex :=
  Re.cat [Re.word (lit "<script"); Re.Rep true 0 (Re.except gt);
          Re.word (lit "src="); Re.Chr (Re.oneof [dq; sq]);
          Re.word (lit "http://"); Re.Rep true 0 (Re.except gt);
          Re.Chr (Re.only gt)].

(** The body once the script tags that load over HTTP are removed. *)
Definition without_script_http_tags (html : str) : str :=
  Re.sub script_http_tag_re [] html.


(** ** Notions the properties are stated with *)


(** [needle] occurs in [s]. *)
Definition Substring (needle s : str) : Prop :=
  exists pre post, s = pre ++ needle ++ post.

(** The number of groups of a pattern. *)
Fixpoint ngroups (r : Re.regex) : nat :=
  match r with
  | Re.Seq a b => ngroups a + ngroups b
  | Re.Grp a => S (ngroups a)
  | _ => 0
  end.

(** The title the SEO check reads from a body: the first group of the
    leftmost match of [title_re], tags removed, stripped. *)
Definition title_of (html : str) : option str :=
  match Re.search title_re html with
  | Some m =>
      match Re.groups m with
      | g :: _ => Some (Str.strip (Re.sub tag_re [] g))
      | [] => None
      end
  | None => None
  end.

(** The image tags the performance check reads from a body, and whether
    one of them has a non-empty [alt]. *)
Definition img_tags (html : str) : list str := Re.findall img_re html.

Definition has_alt (img : str) : bool := truthy (Re.search alt_re img).

(** The entries a report shows, section by section. *)
Definition shown_issues (r : report) : list (str * check) :=
  concat (map snd (issues r)).

Definition shown_passing (r : report) : list str :=
  concat (map snd (passing r)).

(** What a probe of [check_infra] records for the outcome of its fetch. *)
Definition probe_entry (fetched : result response) (i : Impact) : check :=
  {| pass := match fetched with
             | Ok r => (status r =? 200)%Z
             | Raise _ => false
             end;
     impact := i; category := seo; detail := None |}.

(** Is the percentage the floor of the exact one for every part of every
    whole below fifty? *)
Definition floor_below_50 : bool :=
  forallb
    (fun total =>
       forallb
         (fun passed =>
            match percentage passed total with
            | Ok z => (z =? 100 * Z.of_nat passed / Z.of_nat total)%Z
            | Raise _ => false
            end)
         (seq 0 (S total)))
    (seq 1 49).

(** ** Sample inputs *)

(** Three checks, two of them passed. *)
Definition two_of_three : results :=
  [ (lit "HSTS",
      {| pass := true; impact := high; category := security;
         detail := None |});
    (lit "CSP",
      {| pass := false; impact := high; category := security;
         detail := None |});
    (lit "HTTPS/SSL",
      {| pass := true; impact := critical; category := security;
         detail := None |}) ].

(** The float 1.5 *)
Definition one_and_a_half : Float.float := Float.nearest false 3 2.

(** A page whose title is empty. *)
Definition empty_title_page : str := lit "<title></title>".

(** [<script src="http://cdn.example.com/a.js"></script>] *)
Definition script_over_http : str :=
  lit "<script src=" ++ quoted dq (lit "http://cdn.example.com/a.js")
  ++ lit "></script>".

(** The same page with a sentence that names an HTTP address. *)
Definition script_and_mention : str :=
  script_over_http ++ lit "Visit http://old.example.com".

(** A script tag whose address carries a second HTTP address:
    [<script src="http://a.example/x.js?next=http://b.example"></script>] *)
Definition script_with_two_addresses : str :=
  lit "<script src="
  ++ quoted dq (lit "http://a.example/x.js?next=http://b.example")
  ++ lit "></script>".

(** A site that answers its home page and its robots.txt, and nothing
    else. *)
Definition sample_site (url : str) (timeout : Z) : result response :=
  if Str.eqb url (lit "https://example.com") then
    Ok {| status := 200;
          headers := [(lit "Content-Type", lit "text/html")];
          text := lit "<html><head><title>A</title></head><body></body></html>" |}
  else if Str.eqb url (lit "https://example.com/robots.txt") then
    Ok {| status := 200; headers := []; text := [] |}
  else Raise (HTTPError 404).

(** A page whose title is [n] times the letter x. *)
Definition title_page (n : nat) : str :=
  lit "<html><head><title>" ++ repeat 120%N n ++ lit "</title></head></html>".

(** A page with three images, one of them without alternative text. *)
Definition three_images : str :=
  lit "<p><img src='a.png' alt='A'><img src='b.png'><IMG alt='C' src='c.png'></p>".

(** ** More notions for the properties of the remaining code *)

(** The texts a pattern matches, whatever the order in which the matcher
    tries them. *)
Inductive Matches : Re.regex -> str -> Prop :=
| Matches_Eps : Matches Re.Eps []
| Matches_Chr f c : f c = true -> Matches (Re.Chr f) [c]
| Matches_Seq a b x y :
    Matches a x -> Matches b y -> Matches (Re.Seq a b) (x ++ y)
| Matches_Rep greedy lo f x :
    (lo <= length x)%nat -> Forall (fun c => f c = true) x ->
    Matches (Re.Rep greedy lo f) x
| Matches_Grp a x : Matches a x -> Matches (Re.Grp a) x.

(** The number of line feeds of a text. *)
Definition newlines (s : str) : nat := count_occ N.eq_dec s 10%N.

(** The description the SEO check reads from a body: the first group of
    the leftmost match of [meta_description_re]. *)
Definition description_of (html : str) : option str :=
  match Re.search meta_description_re html with
  | Some m =>
      match Re.groups m with
      | g :: _ => Some g
      | [] => None
      end
  | None => None
  end.

(** The headings the SEO check reads from a body: the first group of each
    match of [h1_re], tags removed, stripped. *)
Definition h1s_of (html : str) : list str :=
  map (fun h => Str.strip (Re.sub tag_re [] h)) (Re.findall h1_re html).

(** A small page that names no address. *)
Definition plain_page : str := lit "<p>Hello, world.</p>".

(** The names each module records, in the order it records them. *)
Definition security_names : list str :=
  [lit "HSTS"; lit "X-Content-Type-Options"; lit "X-Frame-Options";
   lit "CSP"; lit "Referrer-Policy"; lit "Permissions-Policy";
   lit "HTTPS/SSL"; lit "No mixed content"].

Definition seo_names : list str :=
  [lit "Title tag"; lit "Meta description"; lit "H1 tag";
   lit "Canonical tag"; lit "Schema markup"; lit "Open Graph tags"].

Definition performance_names (html : str) : list str :=
  [lit "Load time (<2s)"; lit "Load time (<3s)"; lit "Mobile viewport"]
  ++ match img_tags html with
     | [] => []
     | _ :: _ => [lit "Image alt text"]
     end
  ++ [lit "HTML not bloated"].

Definition compliance_names : list str :=
  [lit "Privacy policy"; lit "Cookie notice"; lit "Terms of service";
   lit "Contact info"].

Definition infra_names : list str := [lit "robots.txt"; lit "sitemap.xml"].

(** Every check of a dictionary is of one category. *)
Definition all_of (cat : Category) (d : results) : Prop :=
  Forall (fun kv => category (snd kv) = cat) d.

Definition impact_eqb (a b : Impact) : bool :=
  (IMPACT_ORDER a =? IMPACT_ORDER b)%nat.

(** The checks of a dictionary that are of a given impact. *)
Definition of_impact (i : Impact) (d : results) : results :=
  filter (fun kv => impact_eqb (impact (snd kv)) i) d.

(** The bar of a category in the report, for its percentage:
    [bar_filled = int(pct / 10)], then [bar_filled] full cells and
    [10 - bar_filled] empty ones. *)
Definition bar (pct : Z) : result str :=
  q <- Float.int_truediv pct 10 ;;
  bar_filled <- Float.to_int q ;;
  Ok (repeat 9608%N (Z.to_nat bar_filled)
      ++ repeat 9617%N (Z.to_nat (10 - bar_filled))).

(** Does every percentage from 0 to 100 get the bar with a full cell for
    each ten? *)
Definition bars_0_to_100 : bool :=
  forallb
    (fun n =>
       let pct := Z.of_nat n in
       match bar pct with
       | Ok b =>
           Str.eqb b (repeat 9608%N (Z.to_nat (pct / 10))
                      ++ repeat 9617%N (Z.to_nat (10 - pct / 10)))
       | Raise _ => false
       end)
    (seq 0 101).

(** The percentage of the checks of a category that passed; it raises
    for a category without a check. *)
Definition category_percentage (all_checks : results) (cat : Category)
    : result Z :=
  percentage
    (length (filter (fun kv => pass (snd kv)) (in_category cat all_checks)))
    (length (in_category cat all_checks)).

(** The domain [main] scans for an argument: the argument without
    [https://], without [http://], and without the slashes around it. *)
Definition domain_of (arg : str) : str :=
  Str.strip_chars (lit "/")
    (Str.replace (lit "http://") [] (Str.replace (lit "https://") [] arg)).

(** The dictionary [main] makes of the headers of a response: the names
    in lower case. *)
Definition response_headers (lower : str -> str) (r : response) : dict str :=
  fold_left (fun d kv => dict_set (lower (fst kv)) (snd kv) d) (headers r) [].

(** The names of the checks of a run, in the order [main] merges them. *)
Definition all_names (html : str) : list str :=
  security_names ++ seo_names ++ performance_names html
  ++ compliance_names ++ infra_names.

(** ** Strings and dictionaries *)

Lemma eqb_eq (a b : str) : Str.eqb a b = true <-> a = b.
Proof.
  revert b; induction a as [|x a IH]; intros [|y b]; simpl;
    try (split; [discriminate | congruence]); try tauto.
  rewrite andb_true_iff, N.eqb_eq, IH. split.
  - intros [-> ->]; reflexivity.
  - intros H; injection H as -> ->; auto.
Qed.

Lemma eqb_refl (a : str) : Str.eqb a a = true.
Proof. apply eqb_eq; reflexivity. Qed.

Lemma eqb_neq (a b : str) : Str.eqb a b = false <-> a <> b.
Proof.
  rewrite <- eqb_eq. destruct (Str.eqb a b); split; congruence.
Qed.

Lemma startswith_app (p s : str) : Str.startswith p (p ++ s) = true.
Proof.
  induction p as [|c p IH]; simpl; [reflexivity|].
  rewrite N.eqb_refl; exact IH.
Qed.

Lemma startswith_spec (p s : str) :
  Str.startswith p s = true <-> exists post, s = p ++ post.
Proof.
  split.
  - revert s; induction p as [|c p IH]; intros s H; simpl in *.
    + exists s; reflexivity.
    + destruct s as [|d s]; [discriminate|].
      apply andb_true_iff in H as [Hc Hp].
      apply N.eqb_eq in Hc; subst d.
      destruct (IH _ Hp) as [post ->]. exists post; reflexivity.
  - intros [post ->]; apply startswith_app.
Qed.

Lemma contains_spec (needle s : str) :
  Str.contains needle s = true <-> Substring needle s.
Proof.
  unfold Substring. induction s as [|c s IH]; simpl.
  - rewrite orb_false_r, startswith_spec. split.
    + intros [post H]; exists [], post; exact H.
    + intros [pre [post H]]. destruct pre; simpl in H.
      * exists post; exact H.
      * discriminate.
  - rewrite orb_true_iff, startswith_spec, IH. split.
    + intros [[post H]|[pre [post H]]].
      * exists [], post; exact H.
      * exists (c :: pre), post; simpl; congruence.
    + intros [pre [post H]]. destruct pre as [|d pre]; simpl in H.
      * left; exists post; exact H.
      * right; exists pre, post; congruence.
Qed.

Section DictFacts.
Variable V : Type.
Implicit Types (d : dict V) (k : str) (v : V).

Lemma dict_get_set_same k v d : dict_get k (dict_set k v d) = Some v.
Proof.
  induction d as [|[k' v'] d IH]; simpl.
  - rewrite eqb_refl; reflexivity.
  - destruct (Str.eqb k k') eqn:E; simpl; rewrite E; auto.
Qed.

Lemma dict_get_set_other k k' v d :
  k <> k' -> dict_get k (dict_set k' v d) = dict_get k d.
Proof.
  intros Hne. induction d as [|[k0 v0] d IH]; simpl.
  - apply eqb_neq in Hne; rewrite Hne; reflexivity.
  - destruct (Str.eqb k' k0) eqn:E; simpl.
    + apply eqb_eq in E; subst k0.
      apply eqb_neq in Hne; rewrite Hne; reflexivity.
    + rewrite IH; reflexivity.
Qed.

Lemma dict_get_update_other k d other :
  ~ In k (keys other) -> dict_get k (dict_update d other) = dict_get k d.
Proof.
  unfold dict_update. revert d.
  induction other as [|[k' v'] other IH]; intros d Hnin; simpl in *.
  - reflexivity.
  - rewrite IH by tauto. apply dict_get_set_other. intros ->; tauto.
Qed.

Lemma dict_get_In k v d : dict_get k d = Some v -> In (k, v) d.
Proof.
  induction d as [|[k' v'] d IH]; simpl; [discriminate|].
  destruct (Str.eqb k k') eqn:E.
  - apply eqb_eq in E; subst. intros [= ->]; left; reflexivity.
  - intros H; right; auto.
Qed.
End DictFacts.

(** ** Matches and their groups *)

Lemma rep_some R greedy f lo s (k : str -> option R) x :
  Re.rep greedy f lo s k = Some x -> exists s', k s' = Some x.
Proof.
  revert lo; induction s as [|c s IH]; intros lo H.
  - destruct lo; simpl in H; [eauto | discriminate].
  - destruct lo as [|lo]; simpl in H.
    + destruct (f c); [|eauto].
      destruct greedy.
      * destruct (Re.rep true f 0 s k) eqn:E.
        -- injection H as ->. eapply IH; eassumption.
        -- eauto.
      * destruct (k (c :: s)) eqn:E.
        -- injection H as ->. eauto.
        -- eapply IH; eassumption.
    + destruct (f c); [|discriminate]. eapply IH; eassumption.
Qed.

Lemma exec_groups r :
  forall R s g (k : str -> list str -> option R) x,
    Re.exec r s g k = Some x ->
    exists s' g', k s' g' = Some x /\ length g' = length g + ngroups r.
Proof.
  induction r as [|f|a IHa b IHb|greedy lo f|a IHa]; intros R s g k x H;
    simpl in *.
  - exists s, g; split; [assumption | lia].
  - destruct s as [|c s]; [discriminate|].
    destruct (f c); [|discriminate].
    exists s, g; split; [assumption | lia].
  - apply IHa in H as (s1 & g1 & H & L1).
    apply IHb in H as (s2 & g2 & H & L2).
    exists s2, g2; split; [assumption | lia].
  - apply rep_some in H as [s' H].
    exists s', g; split; [assumption | lia].
  - apply IHa in H as (s1 & g1 & H & L1).
    eexists _, _; split; [eassumption|].
    rewrite length_app; simpl; lia.
Qed.

Lemma match_at_groups r s m :
  Re.match_at r s = Some m -> length (Re.groups m) = ngroups r.
Proof.
  unfold Re.match_at; intros H.
  apply exec_groups in H as (s' & g' & H & L).
  injection H as <-; simpl in *; lia.
Qed.

Lemma search_groups r s m :
  Re.search r s = Some m -> length (Re.groups m) = ngroups r.
Proof.
  induction s as [|c s IH]; simpl; intros H;
    destruct (Re.match_at r _) eqn:E.
  - injection H as <-; eapply match_at_groups; eassumption.
  - discriminate.
  - injection H as <-; eapply match_at_groups; eassumption.
  - auto.
Qed.

(** A match of a pattern with a group has a first group. *)
Lemma group1_ok r s m :
  (0 < ngroups r)%nat -> Re.search r s = Some m ->
  exists g, group1 (Some m) = Ok g /\ Re.groups m = g :: tl (Re.groups m).
Proof.
  intros Hpos H. apply search_groups in H. unfold group1.
  destruct (Re.groups m) as [|g gs]; simpl in *; [lia|].
  exists g; auto.
Qed.


(** ** What each check module returns

    Each module returns a dictionary with a fixed list of names; none of
    them raises. *)

(** Two names of checks differ. *)
Ltac neq := apply eqb_neq; vm_compute; reflexivity.

(** Reduce the operations on values that may be [None], and the binds
    whose first computation is known. *)
Ltac run := cbn [bind truthy falsy len slice_to first try_except].

(** The first group of a match that [search] found for [r]. *)
Ltac first_group r H g :=
  let Hg := fresh "Hg" in
  let Hgs := fresh "Hgs" in
  destruct (@group1_ok r _ _ ltac:(vm_compute; lia) H) as (g & Hg & Hgs);
  rewrite Hg; run.

Lemma check_seo_shape lower html url :
  exists t m h,
    check_seo lower html url =
      Ok [ (lit "Title tag", t); (lit "Meta description", m);
           (lit "H1 tag", h);
           (lit "Canonical tag",
             {| pass := truthy (Re.search canonical_re html);
                impact := high; category := seo; detail := None |});
           (lit "Schema markup",
             {| pass := Str.contains (lit "application/ld+json") html;
                impact := high; category := seo; detail := None |});
           (lit "Open Graph tags",
             {| pass :=
                  Str.contains (lit "property=" ++ quoted dq (lit "og:title"))
                    (lower html)
                  || Str.contains
                       (lit "property=" ++ quoted sq (lit "og:title"))
                       (lower html);
                impact := medium; category := seo; detail := None |}) ]
    /\ category t = seo /\ category m = seo /\ category h = seo
    /\ t = match title_of html with
           | None | Some [] =>
               {| pass := false; impact := critical; category := seo;
                  detail := Some (lit "Missing") |}
           | Some t =>
               if ((length t <? 30) || (60 <? length t))%nat then
                 {| pass := false; impact := high; category := seo;
                    detail := Some (Str.of_nat (length t)
                                    ++ lit " chars (target: 30-60)") |}
               else
                 {| pass := true; impact := critical; category := seo;
                    detail := Some (Str.slice_to 50 t) |}
           end.
Proof.
  unfold check_seo, title_of; cbv zeta.
  (* Title *)
  destruct (Re.search title_re html) as [m|] eqn:Et; run.
  1: first_group title_re Et g; rewrite Hgs;
     destruct (Str.strip (Re.sub tag_re [] g)) as [|x t] eqn:Es; run;
     [| destruct ((length (x :: t) <? 30) || (60 <? length (x :: t)))%nat; run].
  (* Meta description *)
  all: destruct (Re.search meta_description_re html) as [m'|] eqn:Ed; run.
  all: try (first_group meta_description_re Ed g'; destruct g' as [|y u]; run;
            [| destruct ((length (y :: u) <? 70) || (160 <? length (y :: u)))%nat; run]).
  (* H1 *)
  all: destruct (map (fun h => Str.strip (Re.sub tag_re [] h))
                   (Re.findall h1_re html)) as [|h [|h' l]];
    cbn [length Nat.eqb];
    [ | change (1 <? 1)%nat with false
      | change (1 <? S (S (length l)))%nat with true ]; run.
  all: do 3 eexists; split; [reflexivity | repeat split; reflexivity].
Qed.

Lemma check_security_shape url html hdrs :
  check_security url html hdrs =
    Ok [ (lit "HSTS",
           {| pass := dict_mem (lit "strict-transport-security") hdrs;
              impact := high; category := security; detail := None |});
         (lit "X-Content-Type-Options",
           {| pass := dict_mem (lit "x-content-type-options") hdrs;
              impact := medium; category := security; detail := None |});
         (lit "X-Frame-Options",
           {| pass := dict_mem (lit "x-frame-options") hdrs;
              impact := medium; category := security; detail := None |});
         (lit "CSP",
           {| pass := dict_mem (lit "content-security-policy") hdrs;
              impact := high; category := security; detail := None |});
         (lit "Referrer-Policy",
           {| pass := dict_mem (lit "referrer-policy") hdrs;
              impact := low; category := security; detail := None |});
         (lit "Permissions-Policy",
           {| pass := dict_mem (lit "permissions-policy") hdrs;
              impact := low; category := security; detail := None |});
         (lit "HTTPS/SSL",
           {| pass := Str.startswith (lit "https://") url;
              impact := critical; category := security; detail := None |});
         (lit "No mixed content",
           {| pass := negb (Str.contains (lit "http://")
                              (Re.sub script_http_re [] html));
              impact := high; category := security; detail := None |}) ].
Proof. reflexivity. Qed.

Lemma check_performance_shape lower load_time html :
  check_performance lower load_time html =
    Ok ([ (lit "Load time (<2s)",
            {| pass := Float.ltb load_time (Float.of_Z 2);
               impact := high; category := performance;
               detail := Some (Float.repr load_time ++ lit "s") |});
          (lit "Load time (<3s)",
            {| pass := Float.ltb load_time (Float.of_Z 3);
               impact := critical; category := performance;
               detail := Some (Float.repr load_time ++ lit "s") |});
          (lit "Mobile viewport",
            {| pass :=
                 Str.contains (lit "name=" ++ quoted dq (lit "viewport"))
                   (lower html)
                 || Str.contains (lit "name=" ++ quoted sq (lit "viewport"))
                      (lower html);
               impact := high; category := performance; detail := None |}) ]
        ++ match img_tags html with
           | [] => []
           | imgs =>
               let missing_alt :=
                 length (filter (fun img => negb (has_alt img)) imgs) in
               [ (lit "Image alt text",
                   {| pass := (missing_alt =? 0)%nat;
                      impact := medium; category := performance;
                      detail :=
                        Some (if negb (missing_alt =? 0)%nat
                              then Str.of_nat missing_alt ++ lit "/"
                                   ++ Str.of_nat (length imgs)
                                   ++ lit " missing alt"
                              else lit "All " ++ Str.of_nat (length imgs)
                                   ++ lit " have alt text") |}) ]
           end
        ++ [ (lit "HTML not bloated",
               {| pass :=
                    (length (Re.findall long_whitespace_re html) <? 50)%nat;
                  impact := low; category := performance;
                  detail := None |}) ]).
Proof.
  unfold check_performance, img_tags, has_alt; cbv zeta.
  destruct (Re.findall img_re html) as [|img imgs]; reflexivity.
Qed.

Lemma check_compliance_shape lower html url :
  exists p c t o,
    check_compliance lower html url =
      Ok [ (lit "Privacy policy",
             {| pass := p; impact := high; category := compliance;
                detail := None |});
           (lit "Cookie notice",
             {| pass := c; impact := medium; category := compliance;
                detail := None |});
           (lit "Terms of service",
             {| pass := t; impact := medium; category := compliance;
                detail := None |});
           (lit "Contact info",
             {| pass := o; impact := low; category := compliance;
                detail := None |}) ].
Proof. do 4 eexists; reflexivity. Qed.

Lemma check_infra_shape urlopen domain base_url :
  check_infra urlopen domain base_url =
    Ok [ (lit "robots.txt",
           probe_entry (urlopen (base_url ++ lit "/robots.txt") 8%Z) medium);
         (lit "sitemap.xml",
           probe_entry (urlopen (base_url ++ lit "/sitemap.xml") 8%Z) high) ].
Proof.
  unfold check_infra, fetch_url, probe_entry; cbn [probes fold_left]; run.
  destruct (urlopen (base_url ++ lit "/robots.txt") 8%Z); run;
    destruct (urlopen (base_url ++ lit "/sitemap.xml") 8%Z); run;
    reflexivity.
Qed.

(** ** The arithmetic of the score *)

Section FloatFacts.
Open Scope Z_scope.

Lemma digits2_size p : digits2_pos p = Pos.size p.
Proof. induction p; simpl; congruence. Qed.

(** A mantissa of [k] digits is below [2 ^ k]. *)
Lemma Zdigits2_le m k :
  0 <= m -> 0 <= k -> m < 2 ^ k -> Zdigits2 m <= k.
Proof.
  intros Hm Hk Hlt. destruct m as [|p|p]; cbn [Zdigits2]; [lia| |lia].
  rewrite digits2_size.
  destruct (Z.le_gt_cases (Zpos (Pos.size p)) k) as [|Hgt]; [assumption|].
  exfalso.
  assert (H : (2 ^ Pos.size p <= p~0)%positive) by apply Pos.size_le.
  assert (H2 : 2 ^ Zpos (Pos.size p) <= 2 * Zpos p).
  { rewrite <- Pos2Z.inj_pow. change (2 * Zpos p) with (Zpos p~0).
    apply Pos2Z.pos_le_pos; exact H. }
  assert (H3 : 2 ^ (k + 1) <= 2 ^ Zpos (Pos.size p))
    by (apply Z.pow_le_mono_r; lia).
  rewrite Z.pow_add_r in H3 by lia. lia.
Qed.


Lemma shr_1_m mrs : 0 <= shr_m mrs -> shr_m (shr_1 mrs) = shr_m mrs / 2.
Proof.
  destruct mrs as [m r s]; cbn [shr_m]. intros Hm.
  destruct m as [|[p|p|]|p]; cbn [shr_1 shr_m];
    first [ reflexivity
          | apply Z.div_unique with 1; lia
          | apply Z.div_unique with 0; lia
          | lia ].
Qed.

Lemma iter_shr_1_m p :
  forall mrs, 0 <= shr_m mrs ->
    shr_m (iter_pos shr_1 p mrs) = shr_m mrs / 2 ^ Zpos p.
Proof.
  induction p as [p IH|p IH|]; intros mrs Hm; simpl iter_pos.
  - assert (H1 : 0 <= shr_m (shr_1 mrs))
      by (rewrite shr_1_m by assumption; apply Z.div_pos; lia).
    assert (H2 : 0 <= shr_m (iter_pos shr_1 p (shr_1 mrs)))
      by (rewrite IH by assumption; apply Z.div_pos; lia).
    rewrite IH, IH, shr_1_m by assumption.
    rewrite !Z.div_div by lia. f_equal.
    rewrite Pos2Z.inj_xI, <- !Z.pow_add_r, <- Z.pow_succ_r by lia.
    f_equal; lia.
  - assert (H2 : 0 <= shr_m (iter_pos shr_1 p mrs))
      by (rewrite IH by assumption; apply Z.div_pos; lia).
    rewrite IH, IH by assumption.
    rewrite !Z.div_div by lia. f_equal.
    rewrite Pos2Z.inj_xO, <- !Z.pow_add_r by lia.
    f_equal; lia.
  - rewrite shr_1_m by assumption. reflexivity.
Qed.

Lemma shr_record_of_loc_m m l : shr_m (shr_record_of_loc m l) = m.
Proof. destruct l as [|[]]; reflexivity. Qed.

(** The shift of [shr_fexp]: the exponent rises to the one the format
    asks for, and the mantissa loses as many bits. *)
Lemma shr_fexp_spec m e l :
  0 <= m ->
  exists mrs e',
    shr_fexp Float.prec Float.emax m e l = (mrs, e') /\
    e' = Z.max e (fexp Float.prec Float.emax (Zdigits2 m + e)) /\
    shr_m mrs = m / 2 ^ (e' - e).
Proof.
  intros Hm. unfold shr_fexp, shr.
  set (n := fexp Float.prec Float.emax (Zdigits2 m + e) - e).
  assert (Hn : fexp Float.prec Float.emax (Zdigits2 m + e) = n + e)
    by (unfold n; lia).
  rewrite Hn. clearbody n.
  destruct n as [|p|p]; (eexists _, _; split; [reflexivity|]);
    (split; [lia|]).
  1, 3: rewrite shr_record_of_loc_m;
    match goal with |- _ = _ / 2 ^ ?x => replace x with 0 by lia end;
    rewrite Z.pow_0_r, Z.div_1_r; reflexivity.
  rewrite iter_shr_1_m by (rewrite shr_record_of_loc_m; assumption).
  rewrite shr_record_of_loc_m. do 2 f_equal. lia.
Qed.

Lemma round_nearest_even_bounds m l :
  m <= round_nearest_even m l <= m + 1.
Proof.
  unfold round_nearest_even.
  destruct l as [|[]]; try destruct (Z.even m); lia.
Qed.

Lemma fexp_le x B : x <= B -> -1074 <= B ->
  fexp Float.prec Float.emax x <= B.
Proof. unfold fexp, emin, Float.prec, Float.emax. lia. Qed.

(** A shifted mantissa stays under the same magnitude. *)
Lemma shifted_bound m k d B e :
  0 <= m -> 0 <= k -> m < 2 ^ k -> 0 <= d -> k + e <= B -> e + d <= B ->
  exists k', 0 <= k' /\ m / 2 ^ d < 2 ^ k' /\ k' + (e + d) <= B.
Proof.
  intros Hm Hk Hlt Hd HB HeB.
  exists (Z.max 0 (k - d)). split; [lia|]. split; [|lia].
  apply Z.div_lt_upper_bound; [lia|].
  rewrite <- Z.pow_add_r by lia.
  eapply Z.lt_le_trans; [exact Hlt|].
  apply Z.pow_le_mono_r; lia.
Qed.

(** Rounding a mantissa that is not negative and whose magnitude is at
    most [B] gives a zero or a finite float of magnitude at most
    [B + 1]: no infinity, no NaN. *)
Lemma round_aux_bounded sx mx ex lx k B :
  0 <= mx -> 0 <= k -> mx < 2 ^ k -> k + ex <= B -> ex <= B ->
  -1074 <= B <= 970 ->
  match binary_round_aux Float.prec Float.emax sx mx ex lx with
  | S754_zero _ => True
  | S754_finite _ m e =>
      exists k', 0 <= k' /\ Zpos m < 2 ^ k' /\ k' + e <= B + 1 /\ e <= B + 1
  | _ => False
  end.
Proof.
  intros Hm Hk Hlt HkB HeB HB. unfold binary_round_aux.
  destruct (@shr_fexp_spec mx ex lx Hm) as (mrs1 & e1 & -> & He1 & Hm1).
  assert (Hd : Zdigits2 mx <= k) by (apply Zdigits2_le; assumption).
  assert (Hf1 : fexp Float.prec Float.emax (Zdigits2 mx + ex) <= B)
    by (apply fexp_le; lia).
  destruct (@shifted_bound mx k (e1 - ex) B ex) as (k1 & Hk1 & Hlt1 & HB1);
    try lia.
  rewrite <- Hm1 in Hlt1.
  replace (ex + (e1 - ex)) with e1 in HB1 by lia.
  assert (Hm1' : 0 <= shr_m mrs1) by (rewrite Hm1; apply Z.div_pos; lia).
  pose proof (round_nearest_even_bounds (shr_m mrs1)
                (loc_of_shr_record mrs1)) as Hr.
  set (m2 := round_nearest_even (shr_m mrs1) (loc_of_shr_record mrs1)) in *.
  assert (Hm2 : 0 <= m2) by lia.
  assert (Hlt2 : m2 < 2 ^ (k1 + 1))
    by (rewrite Z.pow_add_r by lia; lia).
  destruct (@shr_fexp_spec m2 e1 loc_Exact Hm2) as (mrs2 & e2 & -> & He2 & Hm2').
  assert (Hd2 : Zdigits2 m2 <= k1 + 1) by (apply Zdigits2_le; lia).
  assert (Hf2 : fexp Float.prec Float.emax (Zdigits2 m2 + e1) <= B + 1)
    by (apply fexp_le; lia).
  destruct (@shifted_bound m2 (k1 + 1) (e2 - e1) (B + 1) e1)
    as (k2 & Hk2 & Hlt3 & HB2); try lia.
  rewrite <- Hm2' in Hlt3.
  replace (e1 + (e2 - e1)) with e2 in HB2 by lia.
  assert (H0 : 0 <= shr_m mrs2) by (rewrite Hm2'; apply Z.div_pos; lia).
  destruct (shr_m mrs2) as [|p|p]; [exact I| |lia].
  replace (e2 <=? Float.emax - Float.prec) with true
    by (symmetry; apply Z.leb_le; unfold Float.emax, Float.prec; lia).
  exists k2. repeat split; lia.
Qed.

(** The quotient of [a] by [b], [0 < a <= b], rounds to a finite float of
    magnitude at most 2. *)
Lemma nearest_le_1 a b :
  0 < a <= b ->
  match Float.nearest false a b with
  | S754_zero _ => True
  | S754_finite _ m e =>
      exists k', 0 <= k' /\ Zpos m < 2 ^ k' /\ k' + e <= 2 /\ e <= 2
  | _ => False
  end.
Proof.
  intros Hab. unfold Float.nearest, SFdiv_core_binary.
  set (e' := Z.min _ _).
  assert (He' : e' <= 0) by (unfold e'; apply Z.le_min_r).
  set (m' := match 0 - 0 - e' with 0 => a | Zpos _ => _ | Zneg _ => 0 end).
  assert (Hm' : m' = a * 2 ^ (- e')).
  { unfold m'. replace (0 - 0 - e') with (- e') by lia.
    destruct (- e') as [|p|p] eqn:E; [ | | lia].
    - rewrite Z.pow_0_r; lia.
    - apply Z.shiftl_mul_pow2; lia. }
  clearbody m'. subst m'.
  change (IntDef.Z.div_eucl (a * 2 ^ (- e')) b)
    with (Z.div_eucl (a * 2 ^ (- e')) b).
  pose proof (Z.div_eucl_eq (a * 2 ^ (- e')) b ltac:(lia)) as Heq.
  pose proof (Z.mod_pos_bound (a * 2 ^ (- e')) b ltac:(lia)) as Hr.
  unfold Z.modulo in Hr.
  destruct (Z.div_eucl (a * 2 ^ (- e')) b) as [q r].
  assert (Hp : 0 < 2 ^ (- e')) by (apply Z.pow_pos_nonneg; lia).
  assert (Hq0 : 0 <= q) by nia.
  assert (Hq : q < 2 ^ (- e' + 1)).
  { rewrite Z.pow_add_r by lia. nia. }
  apply (@round_aux_bounded false q e' (new_location b r) (- e' + 1) 1);
    lia.
Qed.

Lemma int_truediv_le_1 a b :
  0 <= a <= b -> 0 < b ->
  exists q, Float.int_truediv a b = Ok q /\
    match q with
    | S754_zero _ => True
    | S754_finite _ m e =>
        exists k', 0 <= k' /\ Zpos m < 2 ^ k' /\ k' + e <= 2 /\ e <= 2
    | _ => False
    end.
Proof.
  intros Hab Hb. unfold Float.int_truediv.
  replace (b =? 0) with false by (symmetry; apply Z.eqb_neq; lia).
  destruct (Z.eqb_spec a 0) as [->|Ha].
  - eexists; split; [reflexivity | exact I].
  - rewrite !Z.abs_eq by lia.
    replace (a <? 0) with false by (symmetry; apply Z.ltb_ge; lia).
    replace (b <? 0) with false by (symmetry; apply Z.ltb_ge; lia).
    cbn [xorb].
    pose proof (@nearest_le_1 a b ltac:(lia)) as H.
    destruct (Float.nearest false a b) as [s|s| |s m e];
      try contradiction; (eexists; split; [reflexivity | exact H]).
Qed.

Lemma mul_100_finite q :
  match q with
  | S754_zero _ => True
  | S754_finite _ m e =>
      exists k', 0 <= k' /\ Zpos m < 2 ^ k' /\ k' + e <= 2 /\ e <= 2
  | _ => False
  end ->
  exists z, Float.to_int (Float.mul q (Float.of_Z 100)) = Ok z.
Proof.
  destruct q as [s|s| |s m e]; try contradiction.
  - intros _. exists 0. reflexivity.
  - intros (k' & Hk' & Hlt & HB & He).
    change (Float.of_Z 100) with (S754_finite false 7036874417766400 (-46)).
    unfold Float.mul, SFmul.
    pose proof (@round_aux_bounded (xorb s false)
                  (Zpos (m * 7036874417766400)) (e + -46) loc_Exact
                  (k' + 53) 9) as H.
    change (IntDef.Z.add e (-46)) with (e + -46).
    destruct (binary_round_aux _ _ _ _ _ _) as [s'|s'| |s' m' e'].
    + exists 0; reflexivity.
    + exfalso; apply H; try lia.
      rewrite Pos2Z.inj_mul, Z.pow_add_r by lia.
      assert (7036874417766400 < 2 ^ 53) by reflexivity. nia.
    + exfalso; apply H; try lia.
      rewrite Pos2Z.inj_mul, Z.pow_add_r by lia.
      assert (7036874417766400 < 2 ^ 53) by reflexivity. nia.
    + eexists; reflexivity.
Qed.

(** The percentage of a part of a whole never raises. *)
Lemma percentage_total (passed total : nat) :
  (passed <= total)%nat -> (0 < total)%nat ->
  exists z, percentage passed total = Ok z.
Proof.
  intros Hle Hpos. unfold percentage.
  destruct (@int_truediv_le_1 (Z.of_nat passed) (Z.of_nat total))
    as (q & -> & Hq); [lia | lia |].
  cbn [bind]. apply mul_100_finite; exact Hq.
Qed.

(** A whole of itself is exactly 1.0, and so 100 per cent. *)
Lemma nearest_self a : 0 < a ->
  Float.nearest false a a = S754_finite false 4503599627370496 (-52).
Proof.
  intros Ha. unfold Float.nearest, SFdiv_core_binary.
  replace (Zdigits2 a + 0 - (Zdigits2 a + 0)) with 0 by lia.
  change (Z.min (fexp Float.prec Float.emax 0) (0 - 0)) with (-53).
  change (0 - 0 - -53) with 53.
  cbv iota.
  change (IntDef.Z.shiftl a 53) with (Z.shiftl a 53).
  rewrite Z.shiftl_mul_pow2 by lia.
  change (IntDef.Z.div_eucl (a * 2 ^ 53) a) with (Z.div_eucl (a * 2 ^ 53) a).
  pose proof (Z.div_eucl_eq (a * 2 ^ 53) a ltac:(lia)) as Heq.
  pose proof (Z.mod_pos_bound (a * 2 ^ 53) a ltac:(lia)) as Hr.
  unfold Z.modulo in Hr.
  destruct (Z.div_eucl (a * 2 ^ 53) a) as [q r].
  assert (Hq : q = 2 ^ 53) by nia.
  assert (Hr0 : r = 0) by nia.
  subst q r.
  replace (new_location a 0) with loc_Exact.
  - reflexivity.
  - unfold new_location, new_location_even, new_location_odd.
    destruct (Z.even a); reflexivity.
Qed.

Lemma percentage_all (total : nat) :
  (0 < total)%nat -> percentage total total = Ok 100.
Proof.
  intros Hpos. unfold percentage, Float.int_truediv.
  replace (Z.of_nat total =? 0) with false
    by (symmetry; apply Z.eqb_neq; lia).
  replace (Z.of_nat total <? 0) with false
    by (symmetry; apply Z.ltb_ge; lia).
  cbn [xorb].
  rewrite Z.abs_eq, nearest_self by lia. reflexivity.
Qed.

Lemma percentage_none (total : nat) :
  (0 < total)%nat -> percentage 0 total = Ok 0.
Proof.
  intros Hpos. unfold percentage, Float.int_truediv.
  replace (Z.of_nat total =? 0) with false
    by (symmetry; apply Z.eqb_neq; lia).
  destruct (Z.of_nat total <? 0); reflexivity.
Qed.

Lemma percentage_empty (passed : nat) :
  percentage passed 0 = Raise ZeroDivisionError.
Proof. reflexivity. Qed.


End FloatFacts.

Lemma floor_below_50_checked : floor_below_50 = true.
Proof. vm_compute. reflexivity. Qed.

Lemma percentage_floor (passed total : nat) :
  (passed <= total)%nat -> (0 < total < 50)%nat ->
  percentage passed total
  = Ok (100 * Z.of_nat passed / Z.of_nat total)%Z.
Proof.
  intros Hle Hlt.
  pose proof floor_below_50_checked as H. unfold floor_below_50 in H.
  rewrite forallb_forall in H.
  specialize (H total ltac:(apply in_seq; lia)).
  rewrite forallb_forall in H.
  specialize (H passed ltac:(apply in_seq; lia)).
  destruct (percentage passed total) as [z|e]; [|discriminate].
  apply Z.eqb_eq in H. congruence.
Qed.

(** ** The report *)

Section SortedFacts.
Variable A : Type.
Variable key : A -> nat.

Lemma insert_by_perm x l : Permutation (insert_by key x l) (x :: l).
Proof.
  induction l as [|y l IH]; simpl; [reflexivity|].
  destruct (key x <=? key y)%nat; [reflexivity|].
  rewrite IH. apply perm_swap.
Qed.

Lemma sorted_by_perm l : Permutation (sorted_by key l) l.
Proof.
  induction l as [|x l IH]; simpl; [reflexivity|].
  rewrite insert_by_perm, IH; reflexivity.
Qed.


End SortedFacts.

Lemma in_category_partition (d : results) :
  Permutation (flat_map (fun cat => in_category cat d) categories) d.
Proof.
  unfold categories; cbn [flat_map]. rewrite app_nil_r.
  induction d as [|[k c] d IH]; [reflexivity|].
  unfold in_category in *.
  destruct c as [p i [] dt]; cbn [filter snd category category_eqb];
    rewrite <- ?app_comm_cons.
  - constructor; exact IH.
  - rewrite <- Permutation_middle. constructor; exact IH.
  - rewrite app_assoc, <- Permutation_middle, <- app_assoc.
    constructor; exact IH.
  - rewrite !app_assoc, <- Permutation_middle, <- !app_assoc.
    constructor; exact IH.
Qed.

(** Groups left out of a report are the empty ones. *)
Lemma concat_groups A B (f : A -> list B) (l : list A) :
  concat (map snd
            (flat_map (fun a => if (length (f a) =? 0)%nat then []
                                else [(a, f a)]) l))
  = flat_map f l.
Proof.
  induction l as [|a l IH]; simpl; [reflexivity|].
  destruct (f a) eqn:E; simpl.
  - exact IH.
  - rewrite IH; reflexivity.
Qed.

Lemma concat_groups' A B (f : A -> list B) (l : list A) :
  concat (map snd
            (flat_map (fun a => if negb (length (f a) =? 0)%nat
                                then [(a, f a)] else []) l))
  = flat_map f l.
Proof.
  induction l as [|a l IH]; simpl; [reflexivity|].
  destruct (f a) eqn:E; simpl.
  - exact IH.
  - rewrite IH; reflexivity.
Qed.

Lemma bind_Ok A B (a : A) (f : A -> result B) : bind (Ok a) f = f a.
Proof. reflexivity. Qed.

Lemma cat_scores_ok (all_checks : results) cats acc :
  exists l,
    fold_left
      (fun (acc : result (list (Category * Z))) cat =>
         cat_scores <- acc ;;
         let cat_checks := in_category cat all_checks in
         if negb (length cat_checks =? 0)%nat then
           let cat_pass :=
             length (filter (fun kv => pass (snd kv)) cat_checks) in
           p <- percentage cat_pass (length cat_checks) ;;
           Ok (cat_scores ++ [(cat, p)])
         else Ok cat_scores)
      cats (Ok acc) = Ok l.
Proof.
  revert acc; induction cats as [|cat cats IH]; intros acc; simpl.
  - eauto.
  - destruct (length (in_category cat all_checks)) eqn:E; simpl.
    + apply IH.
    + rewrite <- E.
      destruct (@percentage_total
                  (length (filter (fun kv => pass (snd kv))
                             (in_category cat all_checks)))
                  (length (in_category cat all_checks))) as [z ->].
      * apply filter_length_le.
      * lia.
      * simpl. apply IH.
Qed.

Lemma print_report_sections domain (all_checks : results) load_time :
  all_checks <> [] ->
  exists r,
    print_report domain all_checks load_time = Ok r /\
    percentage (length (dict_filter pass all_checks)) (length all_checks)
      = Ok (score r) /\
    verdict r = verdict_of (score r) /\
    issues r =
      flat_map
        (fun cat =>
           if (length (sorted_by impact_key
                         (in_category cat
                            (dict_filter (fun v => negb (pass v))
                               all_checks))) =? 0)%nat
           then []
           else [(cat, sorted_by impact_key
                         (in_category cat
                            (dict_filter (fun v => negb (pass v))
                               all_checks)))])
        categories /\
    passing r =
      flat_map
        (fun cat =>
           if negb (length (keys (in_category cat
                                    (dict_filter pass all_checks)))
                    =? 0)%nat
           then [(cat, keys (in_category cat (dict_filter pass all_checks)))]
           else [])
        categories.
Proof.
  intros Hne. unfold print_report; cbv zeta.
  destruct (@percentage_total (length (dict_filter pass all_checks))
              (length all_checks)) as [s Hs].
  - apply filter_length_le.
  - destruct all_checks; [congruence | simpl; lia].
  - rewrite Hs, bind_Ok.
    destruct (cat_scores_ok all_checks categories []) as [cs Hcs].
    cbv zeta in Hcs. rewrite Hcs, bind_Ok.
    eexists; split; [reflexivity|]. cbn [score verdict issues passing].
    repeat split.
    destruct (dict_filter (fun v => negb (pass v)) all_checks) eqn:E.
    + reflexivity.
    + cbn [length Nat.eqb negb]. apply flat_map_ext. intros cat.
      rewrite (Permutation_length (sorted_by_perm impact_key _)).
      reflexivity.
Qed.

(** The reporter divides by the number of checks: without a check it
    raises before it prints. *)
Lemma print_report_empty domain load_time :
  print_report domain [] load_time = Raise ZeroDivisionError.
Proof.
  unfold print_report; cbv zeta. cbn [length dict_filter filter].
  rewrite percentage_empty. reflexivity.
Qed.

Lemma print_report_nonempty domain (all_checks : results) load_time r :
  print_report domain all_checks load_time = Ok r -> all_checks <> [].
Proof. intros H ->. vm_compute in H. discriminate. Qed.

Lemma shown_issues_perm domain (all_checks : results) load_time r :
  print_report domain all_checks load_time = Ok r ->
  Permutation (shown_issues r)
    (dict_filter (fun v => negb (pass v)) all_checks).
Proof.
  intros H.
  destruct (@print_report_sections domain _ load_time
              (@print_report_nonempty _ _ _ _ H)) as (r' & E & _ & _ & Hi & _).
  assert (r' = r) by congruence; subst r'.
  unfold shown_issues. rewrite Hi.
  rewrite (concat_groups
             (fun cat =>
                sorted_by impact_key
                  (in_category cat
                     (dict_filter (fun v => negb (pass v)) all_checks)))).
  etransitivity; [|apply in_category_partition].
  unfold categories; cbn [flat_map].
  repeat apply Permutation_app; try apply sorted_by_perm. reflexivity.
Qed.

Lemma shown_passing_perm domain (all_checks : results) load_time r :
  print_report domain all_checks load_time = Ok r ->
  Permutation (shown_passing r) (keys (dict_filter pass all_checks)).
Proof.
  intros H.
  destruct (@print_report_sections domain _ load_time
              (@print_report_nonempty _ _ _ _ H)) as (r' & E & _ & _ & _ & Hp).
  assert (r' = r) by congruence; subst r'.
  unfold shown_passing. rewrite Hp.
  rewrite (concat_groups'
             (fun cat => keys (in_category cat (dict_filter pass all_checks)))).
  etransitivity;
    [|apply Permutation_map, (in_category_partition
                               (dict_filter pass all_checks))].
  unfold keys, categories; cbn [flat_map].
  rewrite !map_app. reflexivity.
Qed.

Lemma issues_groups domain (all_checks : results) load_time r cat l :
  print_report domain all_checks load_time = Ok r ->
  In (cat, l) (issues r) ->
  l = sorted_by impact_key
        (in_category cat (dict_filter (fun v => negb (pass v)) all_checks))
  /\ l <> [].
Proof.
  intros H Hin.
  destruct (@print_report_sections domain _ load_time
              (@print_report_nonempty _ _ _ _ H)) as (r' & E & _ & _ & Hi & _).
  assert (r' = r) by congruence; subst r'.
  rewrite Hi in Hin.
  apply in_flat_map in Hin as (cat' & _ & Hin).
  destruct (sorted_by impact_key _) eqn:Es in Hin; simpl in Hin;
    [contradiction|].
  destruct Hin as [Hin|[]]. injection Hin as <- <-.
  split; [symmetry; exact Es | discriminate].
Qed.

(** ** The run of [main] *)

Section DictKeys.
Variable V : Type.
Implicit Types (d : dict V) (k : str) (v : V).

Lemma dict_get_None k d : dict_get k d = None <-> ~ In k (keys d).
Proof.
  induction d as [|[k' v'] d IH]; simpl; [tauto|].
  destruct (Str.eqb k k') eqn:E.
  - apply eqb_eq in E. split; [discriminate | intros H; exfalso; auto].
  - apply eqb_neq in E. rewrite IH. split; [intros H [?|?]; auto|tauto].
Qed.

Lemma keys_dict_set k v d :
  keys (dict_set k v d) = if dict_mem k d then keys d else keys d ++ [k].
Proof.
  unfold dict_mem. induction d as [|[k' v'] d IH]; simpl; [reflexivity|].
  destruct (Str.eqb k k') eqn:E; simpl; [reflexivity|].
  rewrite IH. destruct (dict_get k d); reflexivity.
Qed.

Lemma dict_set_NoDup k v d : NoDup (keys d) -> NoDup (keys (dict_set k v d)).
Proof.
  intros H. rewrite keys_dict_set. unfold dict_mem.
  destruct (dict_get k d) eqn:E; [assumption|].
  apply dict_get_None in E.
  apply NoDup_app; [assumption | repeat constructor; intros [] |].
  intros x Hx [<-|[]]. auto.
Qed.

Lemma dict_update_NoDup d other :
  NoDup (keys d) -> NoDup (keys (dict_update d other)).
Proof.
  unfold dict_update. revert d.
  induction other as [|[k v] other IH]; intros d H; simpl; [assumption|].
  apply IH, dict_set_NoDup, H.
Qed.

Lemma dict_get_unique k v v' d :
  NoDup (keys d) -> dict_get k d = Some v -> In (k, v') d -> v' = v.
Proof.
  induction d as [|[k0 v0] d IH]; simpl; [intros _ [=]|].
  intros Hnd Hget Hin. inversion Hnd as [|? ? Hnin Hnd']; subst.
  destruct (Str.eqb k k0) eqn:E.
  - apply eqb_eq in E; subst k0. injection Hget as <-.
    destruct Hin as [[=]|Hin]; [congruence|].
    exfalso; apply Hnin. change k with (fst (k, v')).
    apply in_map; exact Hin.
  - apply eqb_neq in E. destruct Hin as [[=]|Hin]; [congruence|].
    apply IH; assumption.
Qed.
End DictKeys.

(** What [main] gives to [print_report]: the five dictionaries merged, in
    which the HTTPS check is the one [check_security] made. *)
Lemma main_reported lower urlopen prog arg rest elapsed r :
  main lower urlopen (prog :: arg :: rest) elapsed = Ok (Reported r) ->
  let domain :=
    Str.strip_chars (lit "/")
      (Str.replace (lit "http://") []
         (Str.replace (lit "https://") [] arg)) in
  exists all_checks,
    print_report domain all_checks (Float.round2 elapsed) = Ok r /\
    NoDup (keys all_checks) /\
    dict_get (lit "HTTPS/SSL") all_checks =
      Some {| pass := Str.startswith (lit "https://")
                        (lit "https://" ++ domain);
              impact := critical; category := security; detail := None |}.
Proof.
  unfold main; cbv zeta. unfold fetch_url.
  destruct (urlopen _ 12%Z) as [resp|e]; [|discriminate].
  rewrite check_security_shape, bind_Ok.
  destruct (check_seo_shape lower (text resp)
              (lit "https://" ++
               Str.strip_chars (lit "/")
                 (Str.replace (lit "http://") []
                    (Str.replace (lit "https://") [] arg))))
    as (t & m & h & -> & _).
  rewrite bind_Ok, check_performance_shape, bind_Ok.
  destruct (check_compliance_shape lower (text resp)
              (lit "https://" ++
               Str.strip_chars (lit "/")
                 (Str.replace (lit "http://") []
                    (Str.replace (lit "https://") [] arg))))
    as (p & c & ts & o & ->).
  rewrite bind_Ok, check_infra_shape, bind_Ok.
  intros H.
  match type of H with
  | bind (print_report _ ?a _) _ = _ => exists a
  end.
  split; [|split].
  - destruct (print_report _ _ _); [|discriminate].
    cbn [bind] in H. congruence.
  - repeat apply dict_update_NoDup. constructor.
  - rewrite 4 dict_get_update_other;
      [ reflexivity | .. ];
      try destruct (img_tags (text resp));
      cbn [keys map fst app]; intros Hin;
      repeat (destruct Hin as [Hin|Hin];
              [apply eqb_eq in Hin; vm_compute in Hin; discriminate|]);
      exact Hin.
Qed.

(** ** The properties of the specification *)

Lemma filter_all A (f : A -> bool) (l : list A) :
  Forall (fun x => f x = true) l -> filter f l = l.
Proof.
  induction 1 as [|x l Hx _ IH]; simpl; [reflexivity|].
  rewrite Hx, IH; reflexivity.
Qed.

Lemma filter_none A (f : A -> bool) (l : list A) :
  Forall (fun x => f x = false) l -> filter f l = [].
Proof.
  induction 1 as [|x l Hx _ IH]; simpl; [reflexivity|].
  rewrite Hx, IH; reflexivity.
Qed.

(** C1, as amended.  For every collection of checks that is not empty the
    reporter returns a report whose overall score is
    [int((passed / total) * 100)], the product in floating point cut to
    its integer part: below fifty checks it is the floor of the exact
    percentage, it is 100 when every check passes and 0 when every check
    fails. *)
Theorem score_truncated (domain : str) (all_checks : results)
    (load_time : Float.float) :
  all_checks <> [] ->
  exists r,
    print_report domain all_checks load_time = Ok r /\
    percentage (length (dict_filter pass all_checks)) (length all_checks)
      = Ok (score r) /\
    ((length all_checks < 50)%nat ->
     score r = (100 * Z.of_nat (length (dict_filter pass all_checks))
                / Z.of_nat (length all_checks))%Z) /\
    (Forall (fun kv => pass (snd kv) = true) all_checks -> score r = 100%Z) /\
    (Forall (fun kv => pass (snd kv) = false) all_checks -> score r = 0%Z).
Proof.
  intros Hne.
  destruct (@print_report_sections domain all_checks load_time Hne)
    as (r & Hr & Hs & _).
  assert (Hlen : (0 < length all_checks)%nat)
    by (destruct all_checks; [congruence | simpl; lia]).
  exists r. repeat split; try assumption.
  - intros Hlt. rewrite percentage_floor in Hs.
    + congruence.
    + apply filter_length_le.
    + lia.
  - intros Hall. unfold dict_filter in Hs.
    rewrite filter_all, percentage_all in Hs by assumption. congruence.
  - intros Hnone. unfold dict_filter in Hs.
    rewrite filter_none, percentage_none in Hs by assumption. congruence.
Qed.

Lemma score_truncated_witness :
  two_of_three <> [] /\
  exists r, print_report [] two_of_three one_and_a_half = Ok r /\
            score r = 66%Z.
Proof.
  split; [discriminate|].
  destruct (@score_truncated [] two_of_three one_and_a_half
              ltac:(discriminate)) as (r & Hr & _ & Hfloor & _).
  exists r. split; [exact Hr|].
  rewrite Hfloor by (simpl; lia). reflexivity.
Defined.

(** C1 as the specification states it fails: with two checks of three
    passed the score is 66, and the rounded percentage is 67. *)
Lemma score_not_rounded :
  exists r,
    print_report [] two_of_three one_and_a_half = Ok r /\
    score r = 66%Z /\
    rounded_percentage (length (dict_filter pass two_of_three))
      (length two_of_three) = 67%Z /\
    score r <> rounded_percentage (length (dict_filter pass two_of_three))
                 (length two_of_three).
Proof.
  eexists. split; [vm_compute; reflexivity|].
  cbn [score]. split; [reflexivity|].
  split; [reflexivity | vm_compute; discriminate].
Qed.

(** C2, as amended.  The SEO module returns, under the name Title tag:
    a failure of impact critical with detail Missing when no title is
    found or when the title found is empty once stripped; a failure of
    impact high whose detail gives the number of characters when the
    stripped title is not empty and shorter than 30 or longer than 60; a
    pass otherwise, so at 30 and at 60 characters.  No title is found
    exactly when the pattern of the title has no match. *)
Theorem title_tag_outcome (lower : str -> str) (html url : str) :
  exists d,
    check_seo lower html url = Ok d /\
    (title_of html = None <-> Re.search title_re html = None) /\
    dict_get (lit "Title tag") d =
      Some match title_of html with
           | None | Some [] =>
               {| pass := false; impact := critical; category := seo;
                  detail := Some (lit "Missing") |}
           | Some t =>
               if ((length t <? 30) || (60 <? length t))%nat then
                 {| pass := false; impact := high; category := seo;
                    detail := Some (Str.of_nat (length t)
                                    ++ lit " chars (target: 30-60)") |}
               else
                 {| pass := true; impact := critical; category := seo;
                    detail := Some (Str.slice_to 50 t) |}
           end.
Proof.
  destruct (check_seo_shape lower html url)
    as (t & m & h & Hd & _ & _ & _ & Ht).
  eexists; split; [exact Hd|]. split.
  - unfold title_of.
    destruct (Re.search title_re html) as [mt|] eqn:E; [|tauto].
    apply search_groups in E. change (ngroups title_re) with 1%nat in E.
    destruct (Re.groups mt); [discriminate|].
    split; discriminate.
  - cbn [dict_get]. rewrite eqb_refl. f_equal. exact Ht.
Qed.

(** C2 as the specification states it fails: an empty title is a title
    found whose length, 0, is outside 30 to 60, and the check fails with
    impact critical and detail Missing, not with impact high and the
    count. *)
Lemma empty_title_is_missing :
  Re.search title_re empty_title_page <> None /\
  title_of empty_title_page = Some [] /\
  exists d c,
    check_seo ascii_lower empty_title_page [] = Ok d /\
    dict_get (lit "Title tag") d = Some c /\
    impact c = critical /\ detail c = Some (lit "Missing") /\
    impact c <> high.
Proof.
  split; [vm_compute; discriminate|].
  split; [vm_compute; reflexivity|].
  eexists _, _. split; [vm_compute; reflexivity|].
  split; [vm_compute; reflexivity|].
  cbn [impact detail].
  split; [reflexivity|]. split; [reflexivity | discriminate].
Qed.

(** Titles of 29, 30, 60 and 61 characters. *)
Lemma title_lengths :
  forall lower,
    map (fun n =>
           match check_seo lower (title_page n) [] with
           | Ok d => option_map (fun c => (pass c, impact c, detail c))
                       (dict_get (lit "Title tag") d)
           | Raise _ => None
           end) [29; 30; 60; 61]%nat
    = [ Some (false, high, Some (lit "29 chars (target: 30-60)"));
        Some (true, critical, Some (repeat 120%N 30));
        Some (true, critical, Some (repeat 120%N 50));
        Some (false, high, Some (lit "61 chars (target: 30-60)")) ].
Proof.
  intros lower. vm_compute. reflexivity.
Qed.

(** The outcome of the mixed content check of a body. *)
Lemma mixed_content_pass url html hdrs :
  exists d,
    check_security url html hdrs = Ok d /\
    dict_get (lit "No mixed content") d =
      Some {| pass := negb (Str.contains (lit "http://")
                              (Re.sub script_http_re [] html));
              impact := high; category := security; detail := None |}.
Proof.
  rewrite check_security_shape. eexists; split; reflexivity.
Qed.

(** C3, as amended.  The mixed content check, of impact high, passes
    exactly when no [http://] occurs in the body once every match of
    [script_http_re] is deleted from it: what is deleted is the start of
    the script tag up to and including [http://], and the rest of the
    tag stays.  A body that is one script tag loading
    [http://cdn.example.com/a.js] passes; the same body followed by
    [Visit http://old.example.com] fails. *)
Theorem mixed_content_outcome (url html : str) (hdrs : dict str) :
  exists d c,
    check_security url html hdrs = Ok d /\
    dict_get (lit "No mixed content") d = Some c /\
    impact c = high /\
    (pass c = true
     <-> ~ Substring (lit "http://") (Re.sub script_http_re [] html)) /\
    (exists d1 c1,
       check_security url script_over_http hdrs = Ok d1 /\
       dict_get (lit "No mixed content") d1 = Some c1 /\ pass c1 = true) /\
    (exists d2 c2,
       check_security url script_and_mention hdrs = Ok d2 /\
       dict_get (lit "No mixed content") d2 = Some c2 /\ pass c2 = false).
Proof.
  destruct (mixed_content_pass url html hdrs) as (d & Hd & Hc).
  eexists _, _. split; [exact Hd|]. split; [exact Hc|].
  cbn [impact pass]. split; [reflexivity|]. split.
  - rewrite negb_true_iff, <- contains_spec.
    destruct (Str.contains _ _); split; congruence.
  - split.
    + destruct (mixed_content_pass url script_over_http hdrs)
        as (d1 & Hd1 & Hc1).
      eexists _, _. split; [exact Hd1|]. split; [exact Hc1|].
      vm_compute. reflexivity.
    + destruct (mixed_content_pass url script_and_mention hdrs)
        as (d2 & Hd2 & Hc2).
      eexists _, _. split; [exact Hd2|]. split; [exact Hc2|].
      vm_compute. reflexivity.
Qed.

(** C3 as the specification states it fails: for a script tag whose
    address carries a second HTTP address nothing is left of [http://]
    once the tag is removed, and the check fails all the same. *)
Lemma mixed_content_keeps_the_tag :
  Str.contains (lit "http://")
    (without_script_http_tags script_with_two_addresses) = false /\
  exists d c,
    check_security (lit "https://a.example") script_with_two_addresses []
      = Ok d /\
    dict_get (lit "No mixed content") d = Some c /\
    pass c = false.
Proof.
  split; [vm_compute; reflexivity|].
  eexists _, _. split; [vm_compute; reflexivity|].
  split; [vm_compute; reflexivity | reflexivity].
Qed.

Lemma print_report_verdict domain (all_checks : results) load_time r :
  print_report domain all_checks load_time = Ok r ->
  verdict r = verdict_of (score r).
Proof.
  intros H.
  destruct (@print_report_sections domain all_checks load_time
              (@print_report_nonempty _ _ _ _ H)) as (r' & E & _ & V & _).
  congruence.
Qed.

(** C4.  The verdict is the excellent one exactly from 85, the good one
    from 65 to 84, the one that needs work from 45 to 64 and the critical
    one below 45: each tier includes its lower bound, 84 is not excellent
    and 85 is.  The verdict of a report is the verdict of its score. *)
Theorem verdict_tiers (s : Z) :
  (verdict_of s = verdict_excellent <-> (85 <= s)%Z) /\
  (verdict_of s = verdict_good <-> (65 <= s < 85)%Z) /\
  (verdict_of s = verdict_needs_work <-> (45 <= s < 65)%Z) /\
  (verdict_of s = verdict_critical <-> (s < 45)%Z) /\
  verdict_of 84 <> verdict_excellent /\
  verdict_of 85 = verdict_excellent /\
  (forall domain all_checks load_time r,
     print_report domain all_checks load_time = Ok r ->
     verdict r = verdict_of (score r)).
Proof.
  assert (D : forall a b : str, Str.eqb a b = false -> a <> b)
    by (intros a b; apply eqb_neq).
  unfold verdict_of.
  repeat split;
    try (destruct (Z.leb_spec 85 s); destruct (Z.leb_spec 65 s);
         destruct (Z.leb_spec 45 s); intros; try lia; try reflexivity;
         exfalso;
         match goal with
         | H : ?a = ?b |- _ => revert H; apply D; vm_compute; reflexivity
         end).
  - apply D; vm_compute; reflexivity.
  - apply print_report_verdict.
Qed.




(** Three images of which one has no [alt]; and a page without image. *)
Lemma image_alt_examples :
  forall lower load_time,
    (exists d,
       check_performance lower load_time three_images = Ok d /\
       option_map (fun c => (pass c, detail c))
         (dict_get (lit "Image alt text") d)
       = Some (false, Some (lit "1/3 missing alt"))) /\
    (exists d,
       check_performance lower load_time empty_title_page = Ok d /\
       dict_get (lit "Image alt text") d = None).
Proof.
  intros lower load_time. split.
  - rewrite check_performance_shape. eexists; split; [reflexivity|].
    vm_compute. reflexivity.
  - rewrite check_performance_shape. eexists; split; [reflexivity|].
    vm_compute. reflexivity.
Qed.




(** C7.  Whatever the two fetches do, the infra check returns a
    dictionary and raises nothing.  Each of its two checks passes exactly
    when its fetch returns a response of status 200; a fetch that raises
    gives a failed check that is the same for every exception, with no
    detail. *)
Theorem check_infra_outcome (urlopen : str -> Z -> result response)
    (domain base_url : str) :
  let robots := urlopen (base_url ++ lit "/robots.txt") 8%Z in
  let sitemap := urlopen (base_url ++ lit "/sitemap.xml") 8%Z in
  exists d,
    check_infra urlopen domain base_url = Ok d /\
    dict_get (lit "robots.txt") d =
      Some {| pass := match robots with
                      | Ok r => (status r =? 200)%Z
                      | Raise _ => false
                      end;
              impact := medium; category := seo; detail := None |} /\
    dict_get (lit "sitemap.xml") d =
      Some {| pass := match sitemap with
                      | Ok r => (status r =? 200)%Z
                      | Raise _ => false
                      end;
              impact := high; category := seo; detail := None |}.
Proof.
  intros robots sitemap. rewrite check_infra_shape.
  eexists; split; [reflexivity|]. split; reflexivity.
Qed.

(** C8.  Each of the four check modules returns a dictionary, whatever
    the body, the URL, the headers and the load time: none of the
    operations that can raise is reached with an argument on which it
    raises. *)
Theorem check_modules_total (lower : str -> str) (url html : str)
    (hdrs : dict str) (load_time : Float.float) :
  (exists d, check_security url html hdrs = Ok d) /\
  (exists d, check_seo lower html url = Ok d) /\
  (exists d, check_performance lower load_time html = Ok d) /\
  (exists d, check_compliance lower html url = Ok d).
Proof.
  split; [rewrite check_security_shape; eauto|].
  split; [destruct (check_seo_shape lower html url)
            as (t & m & h & -> & _); eauto|].
  split; [rewrite check_performance_shape; eauto|].
  destruct (check_compliance_shape lower html url) as (p & c & t & o & ->).
  eauto.
Qed.



Lemma in_shown_passing domain (all_checks : results) load_time r k c :
  print_report domain all_checks load_time = Ok r ->
  In (k, c) all_checks -> pass c = true -> In k (shown_passing r).
Proof.
  intros Hr Hin Hp.
  apply (Permutation_in _ (Permutation_sym (@shown_passing_perm _ _ _ _ Hr))).
  unfold keys, dict_filter. change k with (fst (k, c)).
  apply in_map, filter_In. split; [exact Hin | exact Hp].
Qed.

Lemma in_shown_issues domain (all_checks : results) load_time r k c :
  print_report domain all_checks load_time = Ok r ->
  In (k, c) (shown_issues r) -> In (k, c) all_checks /\ pass c = false.
Proof.
  intros Hr Hin.
  apply (Permutation_in _ (@shown_issues_perm _ _ _ _ Hr)) in Hin.
  apply filter_In in Hin as [Hin Hp]. split; [exact Hin|].
  apply negb_true_iff; exact Hp.
Qed.

(** The URL [main] scans. *)
Lemma base_url_https (domain : str) :
  Str.startswith (lit "https://") (lit "https://" ++ domain) = true.
Proof. apply startswith_app. Qed.

(** C10.  The URL [main] builds from its argument is [https://] followed
    by the argument without its scheme and without the slashes around
    it, so it starts with [https://].  Whenever the first fetch returns a
    response [main] prints a report, and in that report the check named
    HTTPS/SSL is in the list of the passing checks and not in the
    issues. *)
Theorem https_check_always_passes (lower : str -> str)
    (urlopen : str -> Z -> result response) (prog arg : str)
    (rest : list str) (elapsed : Float.float) (resp : response) :
  let domain :=
    Str.strip_chars (lit "/")
      (Str.replace (lit "http://") []
         (Str.replace (lit "https://") [] arg)) in
  let base_url := lit "https://" ++ domain in
  urlopen base_url 12%Z = Ok resp ->
  Str.startswith (lit "https://") base_url = true /\
  (forall html hdrs,
     exists d,
       check_security base_url html hdrs = Ok d /\
       dict_get (lit "HTTPS/SSL") d =
         Some {| pass := true; impact := critical; category := security;
                 detail := None |}) /\
  exists r,
    main lower urlopen (prog :: arg :: rest) elapsed = Ok (Reported r) /\
    In (lit "HTTPS/SSL") (shown_passing r) /\
    ~ In (lit "HTTPS/SSL") (keys (shown_issues r)).
Proof.
  intros domain base_url Hfetch.
  split; [apply base_url_https|]. split.
  - intros html hdrs.
    rewrite check_security_shape. eexists; split; [reflexivity|].
    unfold base_url. cbn [dict_get].
    replace (Str.eqb (lit "HTTPS/SSL") (lit "HSTS")) with false by reflexivity.
    rewrite base_url_https. reflexivity.
  - assert (Hmain : exists r,
              main lower urlopen (prog :: arg :: rest) elapsed
              = Ok (Reported r)).
    { unfold main; cbv zeta. unfold fetch_url.
      fold domain. fold base_url. rewrite Hfetch.
      rewrite check_security_shape, bind_Ok.
      destruct (check_seo_shape lower (text resp) base_url)
        as (t & m & h & -> & _).
      rewrite bind_Ok, check_performance_shape, bind_Ok.
      destruct (check_compliance_shape lower (text resp) base_url)
        as (p & c & ts & o & ->).
      rewrite bind_Ok, check_infra_shape, bind_Ok.
      match goal with
      | |- exists r, bind (print_report ?dm ?a ?lt) _ = _ =>
          destruct (@print_report_sections dm a lt) as (r & -> & _)
      end.
      - intros E. apply (f_equal (dict_get (lit "HSTS"))) in E.
        rewrite 4 dict_get_update_other in E;
          [ vm_compute in E; discriminate | .. ];
          try destruct (img_tags (text resp));
          cbn [keys map fst app]; intros Hin;
          repeat (destruct Hin as [Hin|Hin];
                  [apply eqb_eq in Hin; vm_compute in Hin; discriminate|]);
          exact Hin.
      - exists r. reflexivity. }
    destruct Hmain as [r Hr]. exists r. split; [exact Hr|].
    destruct (@main_reported _ _ _ _ _ _ _ Hr) as (a & Hp & Hnd & Hget).
    rewrite base_url_https in Hget.
    split.
    + apply (@in_shown_passing _ _ _ _ _ _ Hp (dict_get_In _ _ Hget)).
      reflexivity.
    + intros Hin. apply in_map_iff in Hin as ([k c] & Hk & Hin).
      cbn [fst] in Hk; subst k.
      apply (@in_shown_issues _ _ _ _ _ _ Hp) in Hin as [Hin Hfalse].
      rewrite (@dict_get_unique _ _ _ _ _ Hnd Hget Hin) in Hfalse. discriminate.
Qed.

Lemma https_check_always_passes_witness :
  exists r,
    main ascii_lower sample_site [lit "website_scanner.py"; lit "http://example.com/"]
      one_and_a_half = Ok (Reported r) /\
    In (lit "HTTPS/SSL") (shown_passing r).
Proof.
  destruct (@https_check_always_passes ascii_lower sample_site
              (lit "website_scanner.py") (lit "http://example.com/") []
              one_and_a_half
              {| status := 200;
                 headers := [(lit "Content-Type", lit "text/html")];
                 text := lit "<html><head><title>A</title></head><body></body></html>" |}
              ltac:(reflexivity))
    as (_ & _ & r & Hr & Hin & _).
  exists r. split; assumption.
Defined.

(** ** The matcher finds only what the pattern describes *)

Lemma rep_sound R greedy f lo s (k : str -> option R) res :
  Re.rep greedy f lo s k = Some res ->
  exists x s',
    s = x ++ s' /\ (lo <= length x)%nat /\
    Forall (fun c => f c = true) x /\ k s' = Some res.
Proof.
  revert lo; induction s as [|c s IH]; intros lo H.
  - destruct lo; simpl in H; [|discriminate].
    exists [], []. repeat split; auto.
  - assert (Hstop : k (c :: s) = Some res ->
                    exists x s', c :: s = x ++ s' /\ (0 <= length x)%nat /\
                      Forall (fun c => f c = true) x /\ k s' = Some res)
      by (intros Hk; exists [], (c :: s); repeat split; auto; lia).
    assert (Hgo : forall lo', f c = true ->
                    Re.rep greedy f lo' s k = Some res ->
                    exists x s', c :: s = x ++ s' /\ (S lo' <= length x)%nat /\
                      Forall (fun c => f c = true) x /\ k s' = Some res).
    { intros lo' Hc Hr. apply IH in Hr as (x & s' & -> & Hl & Hf & Hk).
      exists (c :: x), s'. repeat split; simpl; auto; lia. }
    destruct lo as [|lo]; simpl in H.
    + destruct (f c) eqn:Hc; [|auto].
      destruct greedy.
      * destruct (Re.rep true f 0 s k) eqn:E.
        -- injection H as ->.
           destruct (Hgo 0%nat eq_refl E) as (x & s' & ? & ? & ? & ?).
           exists x, s'. repeat split; auto; lia.
        -- auto.
      * destruct (k (c :: s)) eqn:E.
        -- injection H as ->. auto.
        -- destruct (Hgo 0%nat eq_refl H) as (x & s' & ? & ? & ? & ?).
           exists x, s'. repeat split; auto; lia.
    + destruct (f c) eqn:Hc; [|discriminate]. auto.
Qed.

Lemma exec_sound r :
  forall R s g (k : str -> list str -> option R) res,
    Re.exec r s g k = Some res ->
    exists x s' g', s = x ++ s' /\ Matches r x /\ k s' g' = Some res.
Proof.
  induction r as [|f|a IHa b IHb|greedy lo f|a IHa]; intros R s g k res H;
    simpl in H.
  - exists [], s, g. repeat split; auto. constructor.
  - destruct s as [|c s]; [discriminate|].
    destruct (f c) eqn:Hc; [|discriminate].
    exists [c], s, g. repeat split; auto. constructor; exact Hc.
  - apply IHa in H as (x & s1 & g1 & -> & Ma & H).
    apply IHb in H as (y & s2 & g2 & -> & Mb & H).
    exists (x ++ y), s2, g2. rewrite app_assoc. repeat split; auto.
    constructor; assumption.
  - apply rep_sound in H as (x & s' & -> & Hl & Hf & H).
    exists x, s', g. repeat split; auto. constructor; assumption.
  - apply IHa in H as (x & s1 & g1 & -> & Ma & H).
    eexists x, s1, _. repeat split; [|exact H]. constructor; exact Ma.
Qed.

Lemma firstn_consumed (x s' : str) :
  firstn (length (x ++ s') - length s') (x ++ s') = x.
Proof.
  rewrite length_app.
  replace (length x + length s' - length s')%nat with (length x) by lia.
  rewrite firstn_app, firstn_all, Nat.sub_diag. simpl. apply app_nil_r.
Qed.

(** A match at the head of a text is a prefix of it that the pattern
    describes. *)
Lemma match_at_sound r s m :
  Re.match_at r s = Some m ->
  exists s', s = Re.whole m ++ s' /\ Matches r (Re.whole m).
Proof.
  unfold Re.match_at. intros H.
  apply exec_sound in H as (x & s' & g' & -> & Mx & H).
  injection H as <-. cbn [Re.whole]. rewrite firstn_consumed.
  exists s'. split; [reflexivity | exact Mx].
Qed.

(** What [search] finds is a part of the text that the pattern
    describes. *)
Lemma search_sound r s m :
  Re.search r s = Some m ->
  exists pre post, s = pre ++ Re.whole m ++ post /\ Matches r (Re.whole m).
Proof.
  induction s as [|c s IH]; simpl; intros H.
  - destruct (Re.match_at r []) eqn:E; [|discriminate].
    injection H as <-. apply match_at_sound in E as (s' & E & M).
    exists [], s'. split; assumption.
  - destruct (Re.match_at r (c :: s)) eqn:E.
    + injection H as <-. apply match_at_sound in E as (s' & E & M).
      exists [], s'. split; assumption.
    + apply IH in H as (pre & post & -> & M).
      exists (c :: pre), post. split; [reflexivity | exact M].
Qed.

Lemma Matches_word w x : Matches (Re.word w) x -> x = w.
Proof.
  revert x; induction w as [|c w IH]; intros x H; cbn in H.
  - inversion H; reflexivity.
  - inversion H as [| |a b x1 x2 H1 H2| |]; subst.
    inversion H1 as [|f c' Hc| | |]; subst.
    apply N.eqb_eq in Hc; subst c'.
    rewrite (IH _ H2). reflexivity.
Qed.

Lemma Matches_cat_cons r rs x :
  Matches (Re.cat (r :: rs)) x ->
  exists x1 x2, x = x1 ++ x2 /\ Matches r x1 /\ Matches (Re.cat rs) x2.
Proof.
  cbn. intros H. inversion H; subst. eauto.
Qed.

Lemma Matches_cat_nil x : Matches (Re.cat []) x -> x = [].
Proof. cbn. intros H; inversion H; reflexivity. Qed.

Lemma Substring_app_l (n a b : str) : Substring n b -> Substring n (a ++ b).
Proof.
  intros (pre & post & ->). exists (a ++ pre), post.
  rewrite app_assoc. reflexivity.
Qed.

Lemma Substring_app_r (n a b : str) : Substring n a -> Substring n (a ++ b).
Proof.
  intros (pre & post & ->). exists pre, (post ++ b).
  rewrite <- !app_assoc. reflexivity.
Qed.

Lemma Substring_refl (n : str) : Substring n n.
Proof. exists [], []. rewrite app_nil_r. reflexivity. Qed.

Lemma Substring_trans (a b c : str) :
  Substring a b -> Substring b c -> Substring a c.
Proof.
  intros (p1 & q1 & ->) (p2 & q2 & ->).
  exists (p2 ++ p1), (q1 ++ q2). rewrite <- !app_assoc. reflexivity.
Qed.

(** Whatever [script_http_re] matches holds [http://]. *)
Lemma script_http_re_http x :
  Matches script_http_re x -> Substring (lit "http://") x.
Proof.
  unfold script_http_re. intros H.
  do 4 (apply Matches_cat_cons in H as (? & ? & -> & _ & H);
        apply Substring_app_l).
  apply Matches_cat_cons in H as (w1 & w2 & -> & H1 & H2).
  apply Matches_cat_nil in H2; subst. apply Matches_word in H1; subst.
  rewrite app_nil_r. apply Substring_refl.
Qed.

Lemma sub_from_no_match r repl s :
  (forall pre t, s = pre ++ t -> Re.match_at r t = None) ->
  Re.sub_from r repl 0 s = s.
Proof.
  induction s as [|c s IH]; intros H; simpl; [reflexivity|].
  rewrite (H [] (c :: s) eq_refl). f_equal. apply IH.
  intros pre t ->. apply (H (c :: pre)). reflexivity.
Qed.

(** A body in which [http://] does not occur has no match of
    [script_http_re], and the removal leaves it as it is. *)
Lemma sub_script_http_id html :
  ~ Substring (lit "http://") html -> Re.sub script_http_re [] html = html.
Proof.
  intros Hno. apply sub_from_no_match. intros pre t -> .
  destruct (Re.match_at script_http_re t) as [m|] eqn:E; [|reflexivity].
  exfalso. apply Hno. apply Substring_app_l.
  apply match_at_sound in E as (s' & -> & M).
  apply Substring_app_r, script_http_re_http, M.
Qed.

Lemma finditer_from_newlines r skip s :
  (forall t m, Re.match_at r t = Some m -> exists t', t = 10%N :: t') ->
  (length (Re.finditer_from r skip s) <= newlines s)%nat.
Proof.
  intros Hnl. unfold newlines.
  revert skip; induction s as [|c s IH]; intros skip; simpl; [lia|].
  destruct skip as [|k].
  - destruct (Re.match_at r (c :: s)) eqn:E.
    + destruct (Hnl _ _ E) as [t' [= -> ->]].
      destruct (N.eq_dec 10 10); [|congruence].
      simpl. specialize (IH (length (Re.whole r0) - 1)%nat). lia.
    + specialize (IH 0%nat). destruct (N.eq_dec c 10); lia.
  - specialize (IH k). destruct (N.eq_dec c 10); lia.
Qed.

Lemma long_whitespace_starts t m :
  Re.match_at long_whitespace_re t = Some m -> exists t', t = 10%N :: t'.
Proof.
  intros H. apply match_at_sound in H as (s' & -> & M).
  unfold long_whitespace_re in M.
  apply Matches_cat_cons in M as (x1 & x2 & -> & M1 & _).
  inversion M1 as [|f c Hc| | |]; subst.
  apply N.eqb_eq in Hc; subst c. simpl. eauto.
Qed.

(** ** The entries of the check modules *)

Lemma check_seo_entries lower html url :
  exists t m h,
    check_seo lower html url =
      Ok [ (lit "Title tag", t); (lit "Meta description", m);
           (lit "H1 tag", h);
           (lit "Canonical tag",
             {| pass := truthy (Re.search canonical_re html);
                impact := high; category := seo; detail := None |});
           (lit "Schema markup",
             {| pass := Str.contains (lit "application/ld+json") html;
                impact := high; category := seo; detail := None |});
           (lit "Open Graph tags",
             {| pass :=
                  Str.contains (lit "property=" ++ quoted dq (lit "og:title"))
                    (lower html)
                  || Str.contains
                       (lit "property=" ++ quoted sq (lit "og:title"))
                       (lower html);
                impact := medium; category := seo; detail := None |}) ]
    /\ category t = seo
    /\ m = match description_of html with
           | None | Some [] =>
               {| pass := false; impact := high; category := seo;
                  detail := Some (lit "Missing") |}
           | Some g =>
               if ((length g <? 70) || (160 <? length g))%nat then
                 {| pass := false; impact := medium; category := seo;
                    detail := Some (Str.of_nat (length g)
                                    ++ lit " chars (target: 70-160)") |}
               else
                 {| pass := true; impact := high; category := seo;
                    detail := Some (Str.of_nat (length g)
                                    ++ lit " chars " ++ [10003%N]) |}
           end
    /\ h = match h1s_of html with
           | [] =>
               {| pass := false; impact := critical; category := seo;
                  detail := Some (lit "Missing") |}
           | [h1] =>
               {| pass := true; impact := critical; category := seo;
                  detail := Some (Str.slice_to 50 h1) |}
           | _ :: _ :: _ =>
               {| pass := false; impact := high; category := seo;
                  detail := Some (Str.of_nat (length (h1s_of html))
                                  ++ lit " H1s found (should be 1)") |}
           end.
Proof.
  unfold check_seo, description_of, h1s_of; cbv zeta.
  (* Title *)
  destruct (Re.search title_re html) as [mt|] eqn:Et; run.
  1: first_group title_re Et g;
     destruct (Str.strip (Re.sub tag_re [] g)) as [|x t] eqn:Es; run;
     [| destruct ((length (x :: t) <? 30) || (60 <? length (x :: t)))%nat; run].
  (* Meta description *)
  all: destruct (Re.search meta_description_re html) as [m'|] eqn:Ed; run.
  all: try (first_group meta_description_re Ed g'; rewrite Hgs0 || rewrite Hgs;
            destruct g' as [|y u]; run;
            [| destruct ((length (y :: u) <? 70) || (160 <? length (y :: u)))%nat; run]).
  (* H1 *)
  all: destruct (map (fun h => Str.strip (Re.sub tag_re [] h))
                   (Re.findall h1_re html)) as [|h [|h' l]];
    cbn [length Nat.eqb];
    [ | change (1 <? 1)%nat with false
      | change (1 <? S (S (length l)))%nat with true ]; run.
  all: do 3 eexists; split; [reflexivity | repeat split; reflexivity].
Qed.

(** X1.  [Meta description] of [check_seo]: no description, or an empty one,
    is a failure of impact high with detail Missing; a description that
    is not empty and shorter than 70 or longer than 160 characters is a
    failure of impact medium whose detail gives the count; any other
    passes with impact high. *)
Theorem meta_description_outcome (lower : str -> str) (html url : str) :
  exists d,
    check_seo lower html url = Ok d /\
    (description_of html = None
     <-> Re.search meta_description_re html = None) /\
    dict_get (lit "Meta description") d =
      Some match description_of html with
           | None | Some [] =>
               {| pass := false; impact := high; category := seo;
                  detail := Some (lit "Missing") |}
           | Some g =>
               if ((length g <? 70) || (160 <? length g))%nat then
                 {| pass := false; impact := medium; category := seo;
                    detail := Some (Str.of_nat (length g)
                                    ++ lit " chars (target: 70-160)") |}
               else
                 {| pass := true; impact := high; category := seo;
                    detail := Some (Str.of_nat (length g)
                                    ++ lit " chars " ++ [10003%N]) |}
           end.
Proof.
  destruct (check_seo_entries lower html url)
    as (t & m & h & Hd & _ & Hm & _).
  eexists; split; [exact Hd|]. split.
  - unfold description_of.
    destruct (Re.search meta_description_re html) as [md|] eqn:E; [|tauto].
    apply search_groups in E.
    change (ngroups meta_description_re) with 1%nat in E.
    destruct (Re.groups md); [discriminate|]. split; discriminate.
  - cbn [dict_get].
    replace (Str.eqb (lit "Meta description") (lit "Title tag")) with false
      by reflexivity.
    rewrite eqb_refl. f_equal. exact Hm.
Qed.

(** X2.  [H1] of [check_seo]: the check passes exactly when the pattern of the
    heading has one match and one only, whatever its text, even empty;
    the detail of a pass is the first 50 characters of the heading.
    Without a match it fails with impact critical and detail Missing,
    with several with impact high and their number. *)
Theorem h1_outcome (lower : str -> str) (html url : str) :
  exists d c,
    check_seo lower html url = Ok d /\
    dict_get (lit "H1 tag") d = Some c /\
    (pass c = true <-> length (Re.findall h1_re html) = 1%nat) /\
    c = match h1s_of html with
        | [] =>
            {| pass := false; impact := critical; category := seo;
               detail := Some (lit "Missing") |}
        | [h1] =>
            {| pass := true; impact := critical; category := seo;
               detail := Some (Str.slice_to 50 h1) |}
        | _ :: _ :: _ =>
            {| pass := false; impact := high; category := seo;
               detail := Some (Str.of_nat (length (Re.findall h1_re html))
                               ++ lit " H1s found (should be 1)") |}
        end.
Proof.
  destruct (check_seo_entries lower html url)
    as (t & m & h & Hd & _ & _ & Hh).
  eexists. exists h. split; [exact Hd|]. split; [reflexivity|].
  assert (Hlen : length (h1s_of html) = length (Re.findall h1_re html))
    by (unfold h1s_of; apply length_map).
  rewrite <- Hlen. subst h.
  destruct (h1s_of html) as [|h1 [|h2 l]]; cbn [pass length]; split;
    (reflexivity || (split; (discriminate || reflexivity))).
Qed.

(** X3.  [No mixed content] of [check_security]: a body in which [http://]
    does not occur passes. *)
Theorem mixed_content_clean (url html : str) (hdrs : dict str) :
  ~ Substring (lit "http://") html ->
  exists d,
    check_security url html hdrs = Ok d /\
    dict_get (lit "No mixed content") d =
      Some {| pass := true; impact := high; category := security;
              detail := None |}.
Proof.
  intros Hno. rewrite check_security_shape.
  eexists; split; [reflexivity|].
  rewrite sub_script_http_id by assumption.
  replace (Str.contains (lit "http://") html) with false.
  - reflexivity.
  - symmetry. apply not_true_is_false. rewrite contains_spec. exact Hno.
Qed.

Lemma mixed_content_clean_witness :
  exists d,
    check_security (lit "https://example.com") plain_page [] = Ok d /\
    dict_get (lit "No mixed content") d =
      Some {| pass := true; impact := high; category := security;
              detail := None |}.
Proof.
  apply (@mixed_content_clean (lit "https://example.com") plain_page []).
  rewrite <- contains_spec. vm_compute. discriminate.
Defined.

(** X4.  [HTML not bloated] of [check_performance]: every match of the
    pattern starts at a line feed, so a body with fewer than 50 line
    feeds passes. *)
Theorem not_bloated_below_50_lines (lower : str -> str)
    (load_time : Float.float) (html : str) :
  (newlines html < 50)%nat ->
  exists d,
    check_performance lower load_time html = Ok d /\
    dict_get (lit "HTML not bloated") d =
      Some {| pass := true; impact := low; category := performance;
              detail := None |}.
Proof.
  intros Hlt. rewrite check_performance_shape.
  eexists; split; [reflexivity|].
  assert (Hc : (length (Re.findall long_whitespace_re html) <? 50)%nat = true).
  { apply Nat.ltb_lt. unfold Re.findall, Re.finditer. rewrite length_map.
    eapply Nat.le_lt_trans; [|exact Hlt].
    apply finditer_from_newlines. apply long_whitespace_starts. }
  rewrite Hc. destruct (img_tags html); reflexivity.
Qed.

Lemma not_bloated_below_50_lines_witness :
  exists d,
    check_performance ascii_lower one_and_a_half plain_page = Ok d /\
    dict_get (lit "HTML not bloated") d =
      Some {| pass := true; impact := low; category := performance;
              detail := None |}.
Proof.
  apply (@not_bloated_below_50_lines ascii_lower one_and_a_half plain_page).
  vm_compute. lia.
Defined.

(** X5.  The five check modules: each records a fixed list of names, in a
    fixed order, and gives each of its checks its own category; the
    infra checks are of category seo.  The only name that depends on the
    body is Image alt text. *)
Theorem module_names_and_categories (lower : str -> str)
    (urlopen : str -> Z -> result response) (url html domain : str)
    (hdrs : dict str) (load_time : Float.float) :
  exists dsec dseo dperf dcomp dinfra,
    check_security url html hdrs = Ok dsec /\
    check_seo lower html url = Ok dseo /\
    check_performance lower load_time html = Ok dperf /\
    check_compliance lower html url = Ok dcomp /\
    check_infra urlopen domain url = Ok dinfra /\
    keys dsec = security_names /\ all_of security dsec /\
    keys dseo = seo_names /\ all_of seo dseo /\
    keys dperf = performance_names html /\ all_of performance dperf /\
    keys dcomp = compliance_names /\ all_of compliance dcomp /\
    keys dinfra = infra_names /\ all_of seo dinfra.
Proof.
  destruct (check_seo_entries lower html url)
    as (t & m & h & Hq & Ht & Hm & Hh).
  destruct (check_compliance_shape lower html url) as (p & c & ts & o & Hc).
  eexists _, _, _, _, _.
  split; [apply check_security_shape|]. split; [exact Hq|].
  split; [apply check_performance_shape|]. split; [exact Hc|].
  split; [apply check_infra_shape|].
  unfold all_of, performance_names.
  repeat split; try reflexivity; try (repeat constructor; fail).
  - repeat constructor; cbn [snd]; try assumption.
    + subst m. destruct (description_of html) as [[|]|];
        try destruct (_ || _); reflexivity.
    + subst h. destruct (h1s_of html) as [|? [|]]; reflexivity.
  - destruct (img_tags html); reflexivity.
  - destruct (img_tags html); repeat constructor.
Qed.

Lemma any_in_spec needles s :
  any_in needles s = true <-> exists n, In n needles /\ Substring n s.
Proof.
  unfold any_in. rewrite existsb_exists.
  split; intros (n & Hin & H); exists n; split; auto; apply contains_spec;
    assumption.
Qed.

Lemma check_compliance_entries lower html url :
  check_compliance lower html url =
    Ok [ (lit "Privacy policy",
           {| pass :=
                any_in [lit "privacy policy"; lit "privacy-policy";
                        lit "/privacy"; lit "gdpr"; lit "data protection"]
                  (lower html);
              impact := high; category := compliance; detail := None |});
         (lit "Cookie notice",
           {| pass :=
                any_in [lit "cookie"; lit "consent"; lit "gdpr";
                        lit "we use cookies"] (lower html);
              impact := medium; category := compliance; detail := None |});
         (lit "Terms of service",
           {| pass :=
                any_in [lit "terms of service"; lit "terms and conditions";
                        lit "/terms"; lit "terms of use"] (lower html);
              impact := medium; category := compliance; detail := None |});
         (lit "Contact info",
           {| pass :=
                any_in [lit "contact"; lit "email"; lit "@"; lit "mailto:"]
                  (lower html);
              impact := low; category := compliance; detail := None |}) ].
Proof. reflexivity. Qed.

(** X6.  [check_compliance]: the trigger [we use cookies] never decides the
    cookie check, which passes exactly when [cookie], [consent] or [gdpr]
    occurs in the lower-cased body; and a body that names the GDPR passes
    the privacy check and the cookie check together. *)
Theorem cookie_notice_triggers (lower : str -> str) (html url : str) :
  exists d p c,
    check_compliance lower html url = Ok d /\
    dict_get (lit "Privacy policy") d = Some p /\
    dict_get (lit "Cookie notice") d = Some c /\
    (pass c = true
     <-> Substring (lit "cookie") (lower html)
         \/ Substring (lit "consent") (lower html)
         \/ Substring (lit "gdpr") (lower html)) /\
    (Substring (lit "gdpr") (lower html) -> pass p = true /\ pass c = true).
Proof.
  rewrite check_compliance_entries.
  eexists _, _, _. split; [reflexivity|].
  split; [reflexivity|]. split; [reflexivity|].
  cbn [pass]. rewrite !any_in_spec. split; [split|].
  - intros (n & Hin & H). cbn [In] in Hin.
    destruct Hin as [<-|[<-|[<-|[<-|[]]]]]; auto.
    left. eapply Substring_trans; [|exact H].
    exists (lit "we use "), (lit "s"). reflexivity.
  - intros [H|[H|H]]; eexists; (split; [|exact H]); cbn [In]; auto.
  - intros H. split; eexists; (split; [|exact H]); cbn [In]; auto 6.
Qed.

(** ** The range of a percentage *)

Section RangeFacts.
Open Scope Z_scope.

Lemma fexp_mono x y :
  x <= y -> fexp Float.prec Float.emax x <= fexp Float.prec Float.emax y.
Proof. unfold fexp, emin, Float.prec, Float.emax. lia. Qed.

Lemma fexp_ge x : -1074 <= fexp Float.prec Float.emax x.
Proof. unfold fexp, emin, Float.prec, Float.emax. lia. Qed.

Lemma div_pow2_le m n : 0 <= m -> 0 <= n -> m / 2 ^ n * 2 ^ n <= m.
Proof.
  intros Hm Hn. assert (0 < 2 ^ n) by (apply Z.pow_pos_nonneg; lia).
  pose proof (Z.mul_div_le m (2 ^ n) ltac:(lia)). lia.
Qed.

(** Rounding moves a value up by one unit of the last place at most, and
    it raises the exponent no higher than the format asks of a mantissa
    one bit longer. *)
Lemma round_aux_upper sx mx ex lx k :
  0 <= mx -> 0 <= k -> mx < 2 ^ k ->
  match binary_round_aux Float.prec Float.emax sx mx ex lx with
  | S754_finite _ m e =>
      exists d, 0 <= d /\ e = ex + d /\ Zpos m * 2 ^ d <= mx + 2 ^ d /\
                e <= Z.max ex (fexp Float.prec Float.emax (k + ex + 1))
  | _ => True
  end.
Proof.
  intros Hm Hk Hlt. unfold binary_round_aux.
  destruct (@shr_fexp_spec mx ex lx Hm) as (mrs1 & e1 & -> & He1 & Hm1).
  assert (Hd : Zdigits2 mx <= k) by (apply Zdigits2_le; assumption).
  pose proof (fexp_ge (Zdigits2 mx + ex)) as Hge1.
  pose proof (@fexp_mono (Zdigits2 mx + ex) (k + ex + 1) ltac:(lia)) as Hmo1.
  set (n1 := e1 - ex) in *.
  assert (Hn1 : 0 <= n1) by (unfold n1; lia).
  assert (Hp1 : 0 < 2 ^ n1) by (apply Z.pow_pos_nonneg; lia).
  assert (Hm1' : 0 <= shr_m mrs1) by (rewrite Hm1; apply Z.div_pos; lia).
  pose proof (@div_pow2_le mx n1 Hm Hn1) as Hfl1. rewrite <- Hm1 in Hfl1.
  pose proof (round_nearest_even_bounds (shr_m mrs1)
                (loc_of_shr_record mrs1)) as Hr.
  set (m2 := round_nearest_even (shr_m mrs1) (loc_of_shr_record mrs1)) in *.
  assert (Hm2 : 0 <= m2) by lia.
  (* the magnitude after the first shift *)
  assert (Hlt1 : shr_m mrs1 < 2 ^ Z.max 0 (k - n1)).
  { rewrite Hm1. apply Z.div_lt_upper_bound; [lia|].
    rewrite <- Z.pow_add_r by lia.
    eapply Z.lt_le_trans; [exact Hlt|]. apply Z.pow_le_mono_r; lia. }
  assert (Hlt2 : m2 < 2 ^ (Z.max 0 (k - n1) + 1))
    by (rewrite Z.pow_add_r by lia; lia).
  assert (Hd2 : Zdigits2 m2 <= Z.max 0 (k - n1) + 1)
    by (apply Zdigits2_le; lia).
  destruct (@shr_fexp_spec m2 e1 loc_Exact Hm2) as (mrs2 & e2 & -> & He2 & Hm2').
  set (n2 := e2 - e1) in *.
  assert (Hn2 : 0 <= n2) by (unfold n2; lia).
  assert (Hp2 : 0 < 2 ^ n2) by (apply Z.pow_pos_nonneg; lia).
  pose proof (@div_pow2_le m2 n2 Hm2 Hn2) as Hfl2. rewrite <- Hm2' in Hfl2.
  assert (H0 : 0 <= shr_m mrs2) by (rewrite Hm2'; apply Z.div_pos; lia).
  destruct (shr_m mrs2) as [|p|p] eqn:Ep; [exact I| |lia].
  destruct (e2 <=? Float.emax - Float.prec); [|exact I].
  exists (n1 + n2). split; [lia|]. split; [unfold n1, n2; lia|]. split.
  - rewrite Z.pow_add_r by lia. nia.
  - (* the exponent *)
    pose proof (@fexp_mono (Zdigits2 m2 + e1)
                  (Z.max e1 (k + ex) + 1) ltac:(unfold n1 in *; lia)) as Hmo2.
    destruct (Z.le_gt_cases (k + ex) e1) as [Hc|Hc].
    + replace (Z.max e1 (k + ex)) with e1 in Hmo2 by lia.
      assert (fexp Float.prec Float.emax (e1 + 1) <= e1)
        by (unfold fexp, emin, Float.prec, Float.emax in *; lia).
      lia.
    + replace (Z.max e1 (k + ex)) with (k + ex) in Hmo2 by lia. lia.
Qed.

Lemma round_aux_sign sx mx ex lx :
  match binary_round_aux Float.prec Float.emax sx mx ex lx with
  | S754_finite s _ _ => s = sx
  | _ => True
  end.
Proof.
  unfold binary_round_aux.
  destruct (shr_fexp _ _ mx ex lx) as [mrs1 e1].
  destruct (shr_fexp _ _ _ e1 loc_Exact) as [mrs2 e2].
  destruct (shr_m mrs2); auto.
  destruct (e2 <=? _); auto.
Qed.

(** The quotient of a part by its whole is a float that is at most 1. *)
Lemma nearest_at_most_1 a b :
  0 < a <= b ->
  match Float.nearest false a b with
  | S754_zero _ => True
  | S754_finite s m e => s = false /\ e <= 0 /\ Zpos m <= 2 ^ (- e)
  | _ => False
  end.
Proof.
  intros Hab.
  destruct (Z.eq_dec a b) as [<-|Hne].
  { rewrite nearest_self by lia. repeat split; discriminate. }
  pose proof (@nearest_le_1 a b Hab) as Hfin.
  unfold Float.nearest, SFdiv_core_binary in *.
  set (e' := Z.min _ _) in *.
  assert (He' : e' <= 0) by (unfold e'; apply Z.le_min_r).
  set (m' := match 0 - 0 - e' with 0 => a | Zpos _ => _ | Zneg _ => 0 end)
    in *.
  assert (Hm' : m' = a * 2 ^ (- e')).
  { unfold m'. replace (0 - 0 - e') with (- e') by lia.
    destruct (- e') as [|p|p] eqn:E; [ | | lia].
    - rewrite Z.pow_0_r; lia.
    - apply Z.shiftl_mul_pow2; lia. }
  clearbody m'. subst m'.
  change (IntDef.Z.div_eucl (a * 2 ^ (- e')) b)
    with (Z.div_eucl (a * 2 ^ (- e')) b) in *.
  pose proof (Z.div_eucl_eq (a * 2 ^ (- e')) b ltac:(lia)) as Heq.
  pose proof (Z.mod_pos_bound (a * 2 ^ (- e')) b ltac:(lia)) as Hr.
  unfold Z.modulo in Hr.
  destruct (Z.div_eucl (a * 2 ^ (- e')) b) as [q r].
  assert (Hp : 0 < 2 ^ (- e')) by (apply Z.pow_pos_nonneg; lia).
  assert (Hq0 : 0 <= q) by nia.
  assert (Hq : q < 2 ^ (- e')) by nia.
  assert (Hq1 : q < 2 ^ (- e' + 1)) by (rewrite Z.pow_add_r by lia; lia).
  pose proof (@round_aux_upper false q e' (new_location b r) (- e' + 1)
                Hq0 ltac:(lia) Hq1) as Hup.
  pose proof (round_aux_sign false q e' (new_location b r)) as Hs.
  destruct (binary_round_aux _ _ false q e' (new_location b r))
    as [s|s| |s m e]; try contradiction; [exact I|].
  destruct Hup as (d & Hd & He & Hmd & Hex).
  replace (- e' + 1 + e' + 1) with 2 in Hex by lia.
  change (fexp Float.prec Float.emax 2) with (-51) in Hex.
  split; [exact Hs|]. split; [lia|].
  assert (Hsd : - e' = - e + d) by lia.
  rewrite Hsd, Z.pow_add_r in Hq by lia.
  assert (Hpd : 0 < 2 ^ d) by (apply Z.pow_pos_nonneg; lia).
  assert (Hpe : 0 < 2 ^ (- e)) by (apply Z.pow_pos_nonneg; lia).
  nia.
Qed.

(** A float that is at most 1, times 100, cut to its integer part, is
    between 0 and 100. *)
Lemma times_100_range m e :
  e <= 0 -> Zpos m <= 2 ^ (- e) ->
  exists z,
    Float.to_int (Float.mul (S754_finite false m e) (Float.of_Z 100)) = Ok z
    /\ 0 <= z <= 100.
Proof.
  intros He Hm.
  change (Float.of_Z 100) with (S754_finite false 7036874417766400 (-46)).
  unfold Float.mul, SFmul. cbn [xorb].
  change (IntDef.Z.add e (-46)) with (e + -46).
  assert (Hpe : 0 < 2 ^ (- e)) by (apply Z.pow_pos_nonneg; lia).
  assert (HM : 7036874417766400 = 100 * 2 ^ 46) by reflexivity.
  assert (Hlt : Zpos (m * 7036874417766400) < 2 ^ (- e + 53)).
  { rewrite Pos2Z.inj_mul, Z.pow_add_r by lia.
    assert (7036874417766400 < 2 ^ 53) by reflexivity. nia. }
  pose proof (@round_aux_upper false (Zpos (m * 7036874417766400))
                (e + -46) loc_Exact (- e + 53)
                ltac:(lia) ltac:(lia) Hlt) as Hup.
  pose proof (round_aux_sign false (Zpos (m * 7036874417766400))
                (e + -46) loc_Exact) as Hs.
  pose proof (@round_aux_bounded false (Zpos (m * 7036874417766400))
                (e + -46) loc_Exact (- e + 53) 9
                ltac:(lia) ltac:(lia) Hlt ltac:(lia) ltac:(lia) ltac:(lia))
    as Hfin.
  destruct (binary_round_aux _ _ false _ (e + -46) loc_Exact)
    as [s|s| |s m' e']; try contradiction.
  - exists 0. split; [reflexivity | lia].
  - destruct Hup as (d & Hd & He' & Hmd & Hex).
    replace (- e + 53 + (e + -46) + 1) with 8 in Hex by lia.
    change (fexp Float.prec Float.emax 8) with (-45) in Hex.
    subst s. cbn [Float.to_int].
    destruct e' as [|p|p]; try lia.
    eexists; split; [reflexivity|].
    rewrite Z.shiftr_div_pow2 by lia.
    assert (Hpp : 0 < 2 ^ Zpos p) by (apply Z.pow_pos_nonneg; lia).
    assert (Hpd : 0 < 2 ^ d) by (apply Z.pow_pos_nonneg; lia).
    split; [apply Z.div_pos; lia|].
    apply Z.lt_succ_r. apply Z.div_lt_upper_bound; [lia|].
    (* m' * 2^d <= m * M + 2^d  and  - e + 46 = p + d *)
    assert (Hsum : - e + 46 = Zpos p + d) by lia.
    assert (Hpow : 2 ^ (- e) * 2 ^ 46 = 2 ^ Zpos p * 2 ^ d)
      by (rewrite <- !Z.pow_add_r by lia; f_equal; lia).
    rewrite Pos2Z.inj_mul, HM in Hmd.
    assert (H45 : 2 ^ 45 <= 2 ^ Zpos p) by (apply Z.pow_le_mono_r; lia).
    assert (2 ^ 45 = 35184372088832) by reflexivity.
    nia.
Qed.

(** The percentage of a part of a whole is between 0 and 100. *)
Lemma percentage_range (passed total : nat) :
  (passed <= total)%nat -> (0 < total)%nat ->
  exists z, percentage passed total = Ok z /\ 0 <= z <= 100.
Proof.
  intros Hle Hpos. unfold percentage, Float.int_truediv.
  replace (Z.of_nat total =? 0) with false
    by (symmetry; apply Z.eqb_neq; lia).
  replace (Z.of_nat total <? 0) with false
    by (symmetry; apply Z.ltb_ge; lia).
  replace (Z.of_nat passed <? 0) with false
    by (symmetry; apply Z.ltb_ge; lia).
  cbn [xorb].
  destruct (Z.eqb_spec (Z.of_nat passed) 0) as [E|E].
  - cbn [bind]. exists 0. split; [reflexivity | lia].
  - rewrite !Z.abs_eq by lia.
    pose proof (@nearest_at_most_1 (Z.of_nat passed) (Z.of_nat total)
                  ltac:(lia)) as H.
    destruct (Float.nearest false (Z.of_nat passed) (Z.of_nat total))
      as [s|s| |s m e]; try contradiction; cbn [bind].
    + exists 0. split; [destruct s; reflexivity | lia].
    + destruct H as (-> & He & Hm). apply times_100_range; assumption.
Qed.
End RangeFacts.

(** ** The sections of the report *)

Section StableFacts.
Variable A : Type.
Variable key : A -> nat.

Lemma insert_by_stable k x l :
  filter (fun y => key y =? k)%nat (insert_by key x l)
  = filter (fun y => key y =? k)%nat (x :: l).
Proof.
  induction l as [|y l IH]; [reflexivity|].
  cbn [insert_by]. destruct (key x <=? key y)%nat eqn:E; [reflexivity|].
  apply Nat.leb_gt in E.
  cbn [filter] in *. rewrite IH.
  destruct (key x =? k)%nat eqn:Ex; [|reflexivity].
  apply Nat.eqb_eq in Ex.
  replace (key y =? k)%nat with false; [reflexivity|].
  symmetry; apply Nat.eqb_neq; lia.
Qed.

(** [sorted] is stable: the elements of one key keep their order. *)
Lemma sorted_by_stable k l :
  filter (fun y => key y =? k)%nat (sorted_by key l)
  = filter (fun y => key y =? k)%nat l.
Proof.
  induction l as [|x l IH]; [reflexivity|].
  cbn [sorted_by fold_right]. fold (sorted_by key l).
  rewrite insert_by_stable. cbn [filter]. rewrite IH. reflexivity.
Qed.
End StableFacts.

Lemma map_fst_groups A B (f : A -> list B) (l : list A) :
  map fst (flat_map (fun a => if (length (f a) =? 0)%nat then []
                              else [(a, f a)]) l)
  = filter (fun a => negb (length (f a) =? 0)%nat) l.
Proof.
  induction l as [|a l IH]; simpl; [reflexivity|].
  destruct (length (f a) =? 0)%nat; simpl; rewrite IH; reflexivity.
Qed.

Lemma map_fst_groups' A B (f : A -> list B) (l : list A) :
  map fst (flat_map (fun a => if negb (length (f a) =? 0)%nat
                              then [(a, f a)] else []) l)
  = filter (fun a => negb (length (f a) =? 0)%nat) l.
Proof.
  induction l as [|a l IH]; simpl; [reflexivity|].
  destruct (length (f a) =? 0)%nat; simpl; rewrite IH; reflexivity.
Qed.

Lemma cat_scores_spec (all_checks : results) cats acc :
  fold_left
    (fun (acc : result (list (Category * Z))) cat =>
       cat_scores <- acc ;;
       if negb (length (in_category cat all_checks) =? 0)%nat then
         p <- percentage
                (length (filter (fun kv => pass (snd kv))
                           (in_category cat all_checks)))
                (length (in_category cat all_checks)) ;;
         Ok (cat_scores ++ [(cat, p)])
       else Ok cat_scores)
    cats (Ok acc)
  = Ok (acc ++ flat_map
                 (fun cat =>
                    match category_percentage all_checks cat with
                    | Ok p => [(cat, p)]
                    | Raise _ => []
                    end) cats).
Proof.
  revert acc; induction cats as [|cat cats IH]; intros acc;
    cbn [fold_left flat_map].
  - rewrite app_nil_r; reflexivity.
  - unfold category_percentage at 1. rewrite bind_Ok.
    destruct (length (in_category cat all_checks)) eqn:E; cbn [Nat.eqb negb].
    + rewrite percentage_empty. apply IH.
    + rewrite <- E.
      destruct (@percentage_total
                  (length (filter (fun kv => pass (snd kv))
                             (in_category cat all_checks)))
                  (length (in_category cat all_checks))) as [z Hz].
      * apply filter_length_le.
      * lia.
      * rewrite Hz, bind_Ok, IH, <- app_assoc. reflexivity.
Qed.

Lemma print_report_cat_scores domain (all_checks : results) load_time r :
  print_report domain all_checks load_time = Ok r ->
  cat_scores r
  = flat_map (fun cat =>
                match category_percentage all_checks cat with
                | Ok p => [(cat, p)]
                | Raise _ => []
                end) categories.
Proof.
  unfold print_report; cbv zeta. intros H.
  destruct (percentage _ _) as [s|e]; [|discriminate].
  rewrite bind_Ok, cat_scores_spec, bind_Ok in H.
  injection H as <-. reflexivity.
Qed.

Lemma bars_0_to_100_checked : bars_0_to_100 = true.
Proof. vm_compute. reflexivity. Qed.

Lemma bar_spec pct :
  (0 <= pct <= 100)%Z ->
  bar pct = Ok (repeat 9608%N (Z.to_nat (pct / 10))
                ++ repeat 9617%N (Z.to_nat (10 - pct / 10))).
Proof.
  intros Hp. pose proof bars_0_to_100_checked as H.
  unfold bars_0_to_100 in H. rewrite forallb_forall in H.
  specialize (H (Z.to_nat pct) ltac:(apply in_seq; lia)).
  cbv zeta in H. rewrite Z2Nat.id in H by lia.
  destruct (bar pct) as [b|e]; [|discriminate].
  apply eqb_eq in H. subst b. reflexivity.
Qed.

Lemma print_report_ranges (domain : str) (all_checks : results)
    (load_time : Float.float) :
  all_checks <> [] ->
  exists r,
    print_report domain all_checks load_time = Ok r /\
    (0 <= score r <= 100)%Z /\
    forall cat p, In (cat, p) (cat_scores r) -> (0 <= p <= 100)%Z.
Proof.
  intros Hne.
  destruct (@print_report_sections domain all_checks load_time Hne)
    as (r & Hr & Hs & _).
  exists r. split; [exact Hr|]. split.
  - destruct (@percentage_range (length (dict_filter pass all_checks))
                (length all_checks)) as (z & Hz & Hrange).
    + apply filter_length_le.
    + destruct all_checks; [congruence | simpl; lia].
    + congruence.
  - intros cat p Hin. rewrite (@print_report_cat_scores _ _ _ _ Hr) in Hin.
    apply in_flat_map in Hin as (cat' & _ & Hin).
    unfold category_percentage in Hin.
    destruct (length (in_category cat' all_checks)) eqn:E.
    + rewrite percentage_empty in Hin. contradiction.
    + destruct (@percentage_range
                  (length (filter (fun kv => pass (snd kv))
                             (in_category cat' all_checks)))
                  (length (in_category cat' all_checks)))
        as (z & Hz & Hrange).
      * apply filter_length_le.
      * lia.
      * rewrite E in Hz. rewrite Hz in Hin.
        destruct Hin as [[= <- <-]|[]]. exact Hrange.
Qed.

(** X7.  The overall score and the score of every category are between 0 and
    100, for every collection of checks that is not empty. *)
Theorem scores_in_range (domain : str) (all_checks : results)
    (load_time : Float.float) :
  all_checks <> [] ->
  exists r,
    print_report domain all_checks load_time = Ok r /\
    (0 <= score r <= 100)%Z /\
    forall cat p, In (cat, p) (cat_scores r) -> (0 <= p <= 100)%Z.
Proof. apply print_report_ranges. Qed.

Lemma scores_in_range_witness :
  exists r,
    print_report [] two_of_three one_and_a_half = Ok r /\
    (0 <= score r <= 100)%Z.
Proof.
  destruct (@scores_in_range [] two_of_three one_and_a_half
              ltac:(discriminate)) as (r & Hr & Hs & _).
  exists r. split; assumption.
Defined.

(** X8.  The score of a category is the percentage of its checks that passed,
    cut to its integer part; the categories are scored in the order
    security, seo, performance, compliance, and a category without a
    check has no score.  It is 100 when all the checks of the category
    passed and 0 when none did. *)
Theorem category_scores (domain : str) (all_checks : results)
    (load_time : Float.float) :
  all_checks <> [] ->
  exists r,
    print_report domain all_checks load_time = Ok r /\
    cat_scores r
    = flat_map (fun cat =>
                  match category_percentage all_checks cat with
                  | Ok p => [(cat, p)]
                  | Raise _ => []
                  end) categories /\
    map fst (cat_scores r)
    = filter (fun cat => negb (length (in_category cat all_checks) =? 0)%nat)
        categories /\
    (forall cat p, In (cat, p) (cat_scores r) ->
       (Forall (fun kv => pass (snd kv) = true) (in_category cat all_checks)
        -> p = 100%Z) /\
       (Forall (fun kv => pass (snd kv) = false) (in_category cat all_checks)
        -> p = 0%Z)).
Proof.
  intros Hne.
  destruct (@print_report_sections domain all_checks load_time Hne)
    as (r & Hr & _).
  exists r. split; [exact Hr|].
  pose proof (@print_report_cat_scores _ _ _ _ Hr) as Hc.
  split; [exact Hc|]. split.
  - rewrite Hc. clear. induction categories as [|cat cats IH];
      [reflexivity|].
    cbn [flat_map filter]. rewrite map_app, IH.
    unfold category_percentage.
    destruct (length (in_category cat all_checks)) eqn:E.
    + rewrite percentage_empty. reflexivity.
    + destruct (@percentage_total
                  (length (filter (fun kv => pass (snd kv))
                             (in_category cat all_checks)))
                  (length (in_category cat all_checks))) as [z Hz].
      * apply filter_length_le.
      * lia.
      * rewrite E in Hz. rewrite Hz. reflexivity.
  - intros cat p Hin. rewrite Hc in Hin.
    apply in_flat_map in Hin as (cat' & _ & Hin).
    unfold category_percentage in Hin.
    destruct (length (in_category cat' all_checks)) eqn:E.
    { rewrite percentage_empty in Hin. contradiction. }
    destruct (percentage _ (S n)) as [z|e] eqn:Hz; [|contradiction].
    destruct Hin as [[= -> ->]|[]].
    split; intros Hall.
    + rewrite filter_all, E, percentage_all in Hz by (assumption || lia).
      congruence.
    + rewrite filter_none in Hz by assumption.
      cbn [length] in Hz. rewrite percentage_none in Hz by lia. congruence.
Qed.

Lemma category_scores_witness :
  exists r,
    print_report [] two_of_three one_and_a_half = Ok r /\
    cat_scores r = [(security, 66%Z)].
Proof.
  destruct (@category_scores [] two_of_three one_and_a_half
              ltac:(discriminate)) as (r & Hr & Hc & _).
  exists r. split; [exact Hr|]. rewrite Hc. vm_compute. reflexivity.
Defined.

(** X9.  The bar of a category has ten cells, of which one is full for each
    ten of the score of the category. *)
Theorem bars_have_ten_cells (domain : str) (all_checks : results)
    (load_time : Float.float) :
  all_checks <> [] ->
  exists r,
    print_report domain all_checks load_time = Ok r /\
    forall cat p, In (cat, p) (cat_scores r) ->
      exists b,
        bar p = Ok b /\
        b = repeat 9608%N (Z.to_nat (p / 10))
            ++ repeat 9617%N (10 - Z.to_nat (p / 10)) /\
        length b = 10%nat.
Proof.
  intros Hne.
  destruct (@print_report_ranges domain all_checks load_time Hne)
    as (r & Hr & _ & Hcs).
  exists r. split; [exact Hr|]. intros cat p Hin.
  specialize (Hcs cat p Hin).
  rewrite (bar_spec Hcs). eexists; split; [reflexivity|].
  assert (0 <= p / 10 <= 10)%Z.
  { split; [apply Z.div_pos; lia|].
    apply Z.div_le_upper_bound; lia. }
  replace (Z.to_nat (10 - p / 10)) with (10 - Z.to_nat (p / 10))%nat by lia.
  split; [reflexivity|].
  rewrite length_app, !repeat_length. lia.
Qed.

Lemma bars_have_ten_cells_witness :
  exists r,
    print_report [] two_of_three one_and_a_half = Ok r /\
    forall cat p, In (cat, p) (cat_scores r) ->
      exists b, bar p = Ok b /\ length b = 10%nat.
Proof.
  destruct (@bars_have_ten_cells [] two_of_three one_and_a_half
              ltac:(discriminate)) as (r & Hr & H).
  exists r. split; [exact Hr|]. intros cat p Hin.
  destruct (H cat p Hin) as (b & Hb & _ & Hl).
  exists b. split; assumption.
Defined.

(** X10.  The issues are headed by the categories that have a failed check and
    the passing names by those that have a passed one, each category
    once, in the order security, seo, performance, compliance; no group
    is empty, and the issues are empty exactly when every check
    passed. *)
Theorem report_groups (domain : str) (all_checks : results)
    (load_time : Float.float) :
  all_checks <> [] ->
  let failed := dict_filter (fun v => negb (pass v)) all_checks in
  let passed := dict_filter pass all_checks in
  exists r,
    print_report domain all_checks load_time = Ok r /\
    map fst (issues r)
    = filter (fun cat => negb (length (in_category cat failed) =? 0)%nat)
        categories /\
    map fst (passing r)
    = filter (fun cat => negb (length (in_category cat passed) =? 0)%nat)
        categories /\
    (forall cat l, In (cat, l) (issues r) -> l <> []) /\
    (forall cat l, In (cat, l) (passing r) ->
       l = keys (in_category cat passed) /\ l <> []) /\
    (issues r = [] <-> Forall (fun kv => pass (snd kv) = true) all_checks).
Proof.
  intros Hne failed passed.
  destruct (@print_report_sections domain all_checks load_time Hne)
    as (r & Hr & _ & _ & Hi & Hp).
  exists r. split; [exact Hr|].
  assert (Hlen : forall cat,
            length (sorted_by impact_key (in_category cat failed))
            = length (in_category cat failed))
    by (intros cat; apply Permutation_length, sorted_by_perm).
  split; [|split; [|split; [|split]]].
  - rewrite Hi.
    rewrite (map_fst_groups
               (fun cat => sorted_by impact_key (in_category cat failed))).
    apply filter_ext. intros cat. rewrite Hlen. reflexivity.
  - rewrite Hp.
    rewrite (map_fst_groups'
               (fun cat => keys (in_category cat passed))).
    apply filter_ext. intros cat. unfold keys. rewrite length_map.
    reflexivity.
  - intros cat l Hin. apply (@issues_groups _ _ _ _ _ _ Hr Hin).
  - intros cat l Hin. rewrite Hp in Hin.
    apply in_flat_map in Hin as (cat' & _ & Hin).
    destruct (keys (in_category cat' (dict_filter pass all_checks)))
      eqn:Ek in Hin; cbn in Hin; [contradiction|].
    destruct Hin as [[= <- <-]|[]].
    split; [symmetry; exact Ek | discriminate].
  - pose proof (@shown_issues_perm _ _ _ _ Hr) as Pi. split.
    + intros E. unfold shown_issues in Pi. rewrite E in Pi. cbn in Pi.
      apply Permutation_nil in Pi.
      apply Forall_forall. intros kv Hin.
      destruct (pass (snd kv)) eqn:Ep; [reflexivity|]. exfalso.
      assert (Hf : In kv (dict_filter (fun v => negb (pass v)) all_checks))
        by (apply filter_In; split; [exact Hin | rewrite Ep; reflexivity]).
      rewrite Pi in Hf. exact Hf.
    + intros Hall.
      assert (Hf : dict_filter (fun v => negb (pass v)) all_checks = []).
      { unfold dict_filter. apply filter_none.
        eapply Forall_impl; [|exact Hall].
        intros kv ->. reflexivity. }
      rewrite Hi, Hf. reflexivity.
Qed.

Lemma report_groups_witness :
  exists r,
    print_report [] two_of_three one_and_a_half = Ok r /\
    map fst (issues r) = [security] /\ map fst (passing r) = [security].
Proof.
  destruct (@report_groups [] two_of_three one_and_a_half
              ltac:(discriminate)) as (r & Hr & Hi & Hp & _).
  exists r. split; [exact Hr|]. rewrite Hi, Hp. split; reflexivity.
Defined.

(** X11.  The sort of the issues is stable: within a category the failed
    checks of one impact are listed in the order of the dictionary. *)
Theorem issues_keep_order (domain : str) (all_checks : results)
    (load_time : Float.float) :
  all_checks <> [] ->
  exists r,
    print_report domain all_checks load_time = Ok r /\
    forall cat l i, In (cat, l) (issues r) ->
      of_impact i l
      = of_impact i
          (in_category cat (dict_filter (fun v => negb (pass v)) all_checks)).
Proof.
  intros Hne.
  destruct (@print_report_sections domain all_checks load_time Hne)
    as (r & Hr & _).
  exists r. split; [exact Hr|]. intros cat l i Hin.
  destruct (@issues_groups _ _ _ _ _ _ Hr Hin) as [-> _].
  unfold of_impact, impact_eqb.
  apply (sorted_by_stable impact_key (IMPACT_ORDER i)).
Qed.

Lemma issues_keep_order_witness :
  exists r,
    print_report [] two_of_three one_and_a_half = Ok r /\
    forall cat l, In (cat, l) (issues r) ->
      of_impact high l = of_impact high
        (in_category cat
           (dict_filter (fun v => negb (pass v)) two_of_three)).
Proof.
  destruct (@issues_keep_order [] two_of_three one_and_a_half
              ltac:(discriminate)) as (r & Hr & H).
  exists r. split; [exact Hr|]. intros cat l. apply H.
Defined.

(** ** More on the run of [main] *)

(** What [main] reports on: the dictionaries of the five modules merged,
    none of whose names meets another. *)
Lemma main_checks lower urlopen prog arg rest elapsed r :
  main lower urlopen (prog :: arg :: rest) elapsed = Ok (Reported r) ->
  exists resp all_checks,
    urlopen (lit "https://" ++ domain_of arg) 12%Z = Ok resp /\
    print_report (domain_of arg) all_checks (Float.round2 elapsed) = Ok r /\
    NoDup (keys all_checks) /\
    keys all_checks = all_names (text resp) /\
    forall header label i,
      In (header, (label, i)) security_headers ->
      dict_get label all_checks =
        Some {| pass := dict_mem header (response_headers lower resp);
                impact := i; category := security; detail := None |}.
Proof.
  unfold main; cbv zeta. unfold fetch_url. fold (domain_of arg).
  destruct (urlopen _ 12%Z) as [resp|e] eqn:Hfetch; [|discriminate].
  fold (response_headers lower resp).
  rewrite check_security_shape, bind_Ok.
  destruct (check_seo_shape lower (text resp)
              (lit "https://" ++ domain_of arg)) as (t & m & h & -> & _).
  rewrite bind_Ok, check_performance_shape, bind_Ok.
  destruct (check_compliance_shape lower (text resp)
              (lit "https://" ++ domain_of arg)) as (p & c & ts & o & ->).
  rewrite bind_Ok, check_infra_shape, bind_Ok.
  intros H. exists resp.
  match type of H with
  | bind (print_report _ ?a _) _ = _ => exists a
  end.
  split; [reflexivity|]. split; [|split; [|split]].
  - destruct (print_report _ _ _); [|discriminate].
    cbn [bind] in H. congruence.
  - repeat apply dict_update_NoDup. constructor.
  - unfold all_names, performance_names.
    destruct (img_tags (text resp)); reflexivity.
  - intros header label i Hin.
    cbn [security_headers In] in Hin.
    rewrite 4 dict_get_update_other;
      [repeat (destruct Hin as [[= <- <- <-]|Hin]; [reflexivity|]);
       destruct Hin
      |destruct (img_tags (text resp)); cbn [keys map fst app];
       repeat (destruct Hin as [[= <- <- <-]|Hin];
               [intros Hk; repeat (destruct Hk as [Hk|Hk];
                  [vm_compute in Hk; discriminate|]);
                destruct Hk|]);
       destruct Hin ..].
Qed.

(** ** The headers of a response *)

Lemma dict_mem_set V k k' (v : V) d :
  dict_mem k (dict_set k' v d) = true <-> k = k' \/ dict_mem k d = true.
Proof.
  unfold dict_mem. destruct (Str.eqb k k') eqn:E.
  - apply eqb_eq in E; subst k'. rewrite dict_get_set_same. tauto.
  - apply eqb_neq in E. rewrite dict_get_set_other by exact E. tauto.
Qed.

Lemma response_headers_mem lower resp k :
  dict_mem k (response_headers lower resp) = true <->
  exists kv, In kv (headers resp) /\ lower (fst kv) = k.
Proof.
  unfold response_headers.
  assert (G : forall hs (d : dict str),
            dict_mem k
              (fold_left (fun d kv => dict_set (lower (fst kv)) (snd kv) d)
                 hs d) = true <->
            dict_mem k (d : dict str) = true \/
            exists kv, In kv hs /\ lower (fst kv) = k).
  { induction hs as [|h hs IH]; intros d; cbn [fold_left].
    - split; [tauto|]. intros [H|(kv & [] & _)]. exact H.
    - rewrite IH, dict_mem_set. split.
      + intros [[->|H]|(kv & Hin & E)].
        * right. exists h. split; [left; reflexivity|reflexivity].
        * left; exact H.
        * right. exists kv. split; [right; exact Hin|exact E].
      + intros [H|(kv & [->|Hin] & E)].
        * left; right; exact H.
        * left; left; symmetry; exact E.
        * right. exists kv. split; assumption. }
  rewrite G. split.
  - intros [H|H]; [discriminate|exact H].
  - intros H; right; exact H.
Qed.

(** ** What a run of [main] reports *)

Lemma main_reports lower urlopen prog arg rest elapsed resp :
  urlopen (lit "https://" ++ domain_of arg) 12%Z = Ok resp ->
  exists r,
    main lower urlopen (prog :: arg :: rest) elapsed = Ok (Reported r).
Proof.
  intros Hfetch.
  unfold main; cbv zeta. unfold fetch_url. fold (domain_of arg).
  rewrite Hfetch.
  rewrite check_security_shape, bind_Ok.
  destruct (check_seo_shape lower (text resp)
              (lit "https://" ++ domain_of arg)) as (t & m & h & -> & _).
  rewrite bind_Ok, check_performance_shape, bind_Ok.
  destruct (check_compliance_shape lower (text resp)
              (lit "https://" ++ domain_of arg)) as (p & c & ts & o & ->).
  rewrite bind_Ok, check_infra_shape, bind_Ok.
  match goal with
  | |- exists r, bind (print_report ?dm ?a ?lt) _ = _ =>
      destruct (@print_report_sections dm a lt) as (r & -> & _)
  end.
  - intros E. apply (f_equal (dict_get (lit "HSTS"))) in E.
    rewrite 4 dict_get_update_other in E;
      [ vm_compute in E; discriminate | .. ];
      try destruct (img_tags (text resp));
      cbn [keys map fst app]; intros Hin;
      repeat (destruct Hin as [Hin|Hin];
              [vm_compute in Hin; discriminate|]);
      exact Hin.
  - exists r. reflexivity.
Qed.

Lemma keys_filter_perm (d : results) :
  Permutation
    (keys (dict_filter (fun v => negb (pass v)) d) ++ keys (dict_filter pass d))
    (keys d).
Proof.
  unfold keys, dict_filter.
  induction d as [|[k c] d IH]; cbn [filter map snd fst]; [reflexivity|].
  destruct (pass c); cbn [negb map fst app].
  - rewrite <- Permutation_middle. constructor. exact IH.
  - constructor. exact IH.
Qed.

Lemma shown_names_perm domain (all_checks : results) load_time r :
  print_report domain all_checks load_time = Ok r ->
  Permutation (keys (shown_issues r) ++ shown_passing r) (keys all_checks).
Proof.
  intros Hr.
  etransitivity; [|apply keys_filter_perm].
  apply Permutation_app.
  - apply Permutation_map, (@shown_issues_perm _ _ _ _ Hr).
  - apply (@shown_passing_perm _ _ _ _ Hr).
Qed.

Lemma in_shown_passing_inv domain (all_checks : results) load_time r k :
  print_report domain all_checks load_time = Ok r ->
  In k (shown_passing r) ->
  exists c, In (k, c) all_checks /\ pass c = true.
Proof.
  intros Hr Hin.
  apply (Permutation_in _ (@shown_passing_perm _ _ _ _ Hr)) in Hin.
  apply in_map_iff in Hin as ([k' c] & E & Hin). cbn [fst] in E; subst k'.
  apply filter_In in Hin as [Hin Hp]. exists c. split; assumption.
Qed.

Lemma in_shown_issues_iff domain (all_checks : results) load_time r k c :
  print_report domain all_checks load_time = Ok r ->
  In (k, c) (shown_issues r) <-> In (k, c) all_checks /\ pass c = false.
Proof.
  intros Hr. split.
  - apply (@in_shown_issues _ _ _ _ _ _ Hr).
  - intros [Hin Hp].
    apply (Permutation_in _ (Permutation_sym (@shown_issues_perm _ _ _ _ Hr))).
    apply filter_In. split; [exact Hin|]. cbn [snd]. rewrite Hp. reflexivity.
Qed.

(** X12.  Security headers in a run of [main].  When the first fetch returns a
    response, the check of each of the six security headers is listed
    among the passing checks exactly when the response carries a header
    whose name, in lower case, is the name of that header, and among the
    issues, failed and without a detail, exactly when it carries none. *)
Theorem security_headers_reported (lower : str -> str)
    (urlopen : str -> Z -> result response) (prog arg : str)
    (rest : list str) (elapsed : Float.float) (resp : response) :
  urlopen (lit "https://" ++ domain_of arg) 12%Z = Ok resp ->
  exists r,
    main lower urlopen (prog :: arg :: rest) elapsed = Ok (Reported r) /\
    forall header label i,
      In (header, (label, i)) security_headers ->
      let sent :=
        exists kv, In kv (headers resp) /\ lower (fst kv) = header in
      (In label (shown_passing r) <-> sent) /\
      (In (label, {| pass := false; impact := i; category := security;
                     detail := None |}) (shown_issues r) <-> ~ sent).
Proof.
  intros Hfetch.
  destruct (@main_reports lower _ prog _ rest elapsed _ Hfetch) as [r Hr].
  exists r. split; [exact Hr|].
  destruct (@main_checks _ _ _ _ _ _ _ Hr)
    as (resp' & a & Hfetch' & Hp & Hnd & _ & Hget).
  assert (resp' = resp) by congruence; subst resp'.
  intros header label i Hin sent.
  specialize (Hget _ _ _ Hin).
  assert (Hsent : dict_mem header (response_headers lower resp) = true
                  <-> sent) by apply response_headers_mem.
  split; split.
  - intros Hs.
    destruct (@in_shown_passing_inv _ _ _ _ _ Hp Hs) as (c & Hc & Hpass).
    rewrite (@dict_get_unique _ _ _ _ _ Hnd Hget Hc) in Hpass.
    apply Hsent. exact Hpass.
  - intros Hs. apply Hsent in Hs.
    apply (@in_shown_passing _ _ _ _ _ _ Hp (dict_get_In _ _ Hget)).
    exact Hs.
  - intros Hi Hs. apply Hsent in Hs.
    apply (@in_shown_issues _ _ _ _ _ _ Hp) in Hi as [Hi _].
    pose proof (@dict_get_unique _ _ _ _ _ Hnd Hget Hi) as E.
    apply (f_equal pass) in E. cbn [pass] in E. congruence.
  - intros Hs.
    apply (@in_shown_issues_iff _ _ _ _ _ _ Hp). split; [|reflexivity].
    destruct (dict_mem header (response_headers lower resp)) eqn:E.
    + exfalso. apply Hs, Hsent. reflexivity.
    + apply dict_get_In. exact Hget.
Qed.

Lemma security_headers_reported_witness :
  exists r,
    main ascii_lower sample_site
      [lit "website_scanner.py"; lit "http://example.com/"]
      one_and_a_half = Ok (Reported r) /\
    ~ In (lit "HSTS") (shown_passing r).
Proof.
  destruct (@security_headers_reported ascii_lower sample_site
              (lit "website_scanner.py") (lit "http://example.com/") []
              one_and_a_half
              {| status := 200;
                 headers := [(lit "Content-Type", lit "text/html")];
                 text := lit "<html><head><title>A</title></head><body></body></html>" |}
              ltac:(reflexivity))
    as (r & Hr & H).
  exists r. split; [exact Hr|].
  destruct (H (lit "strict-transport-security") (lit "HSTS") high
              ltac:(left; reflexivity)) as [Hpass _].
  intros Hin. apply Hpass in Hin. destruct Hin as (kv & [<-|[]] & E).
  vm_compute in E. discriminate.
Defined.

(** X13.  Every check is reported once.  When the first fetch returns a
    response, the names listed in the report, issues and passing checks
    together, are the names the five modules record, each listed once:
    no module overwrites a check of another.  They are 25 when the body
    has an image tag and 24 otherwise. *)
Theorem every_check_reported_once (lower : str -> str)
    (urlopen : str -> Z -> result response) (prog arg : str)
    (rest : list str) (elapsed : Float.float) (resp : response) :
  urlopen (lit "https://" ++ domain_of arg) 12%Z = Ok resp ->
  exists r,
    main lower urlopen (prog :: arg :: rest) elapsed = Ok (Reported r) /\
    let shown := keys (shown_issues r) ++ shown_passing r in
    Permutation shown (all_names (text resp)) /\
    NoDup shown /\
    length shown = match img_tags (text resp) with
                   | [] => 24
                   | _ :: _ => 25
                   end.
Proof.
  intros Hfetch.
  destruct (@main_reports lower _ prog _ rest elapsed _ Hfetch) as [r Hr].
  exists r. split; [exact Hr|].
  destruct (@main_checks _ _ _ _ _ _ _ Hr)
    as (resp' & a & Hfetch' & Hp & Hnd & Hkeys & _).
  assert (resp' = resp) by congruence; subst resp'.
  pose proof (@shown_names_perm _ _ _ _ Hp) as P.
  cbv zeta. split; [|split].
  - rewrite <- Hkeys. exact P.
  - apply (Permutation_NoDup (Permutation_sym P)). exact Hnd.
  - rewrite (Permutation_length P), Hkeys.
    unfold all_names, performance_names.
    destruct (img_tags (text resp)); reflexivity.
Qed.

Lemma every_check_reported_once_witness :
  exists r,
    main ascii_lower sample_site
      [lit "website_scanner.py"; lit "http://example.com/"]
      one_and_a_half = Ok (Reported r) /\
    length (keys (shown_issues r) ++ shown_passing r) = 24.
Proof.
  destruct (@every_check_reported_once ascii_lower sample_site
              (lit "website_scanner.py") (lit "http://example.com/") []
              one_and_a_half
              {| status := 200;
                 headers := [(lit "Content-Type", lit "text/html")];
                 text := lit "<html><head><title>A</title></head><body></body></html>" |}
              ltac:(reflexivity))
    as (r & Hr & _ & _ & H).
  exists r. split; [exact Hr|exact H].
Defined.


(** ** The domain of an argument *)

Section StripFacts.
Variable f : N -> bool.

Lemma lstrip_by_head s c r : Str.lstrip_by f s = c :: r -> f c = false.
Proof.
  induction s as [|a s IH]; cbn [Str.lstrip_by]; [discriminate|].
  destruct (f a) eqn:E; [exact IH|].
  intros [= <- _]. exact E.
Qed.

Lemma lstrip_by_suffix s : exists p, s = p ++ Str.lstrip_by f s.
Proof.
  induction s as [|a s [p IH]]; cbn [Str.lstrip_by].
  - exists []. reflexivity.
  - destruct (f a).
    + exists (a :: p). cbn [app]. f_equal. exact IH.
    + exists []. reflexivity.
Qed.

Lemma lstrip_by_id s :
  Forall (fun c => f c = false) s -> Str.lstrip_by f s = s.
Proof.
  intros H. destruct H as [|a s Ha _]; cbn [Str.lstrip_by]; [reflexivity|].
  rewrite Ha. reflexivity.
Qed.

Lemma strip_by_head s c r : Str.strip_by f s = c :: r -> f c = false.
Proof.
  unfold Str.strip_by, Str.rstrip_by. intros H.
  destruct (lstrip_by_suffix (rev (Str.lstrip_by f s))) as [p Hp].
  apply (f_equal (@rev N)) in Hp.
  rewrite rev_involutive, rev_app_distr, H in Hp.
  apply (@lstrip_by_head s c (r ++ rev p)). exact Hp.
Qed.

Lemma strip_by_last s c r : Str.strip_by f s = r ++ [c] -> f c = false.
Proof.
  unfold Str.strip_by, Str.rstrip_by. intros H.
  apply (f_equal (@rev N)) in H.
  rewrite rev_involutive, rev_app_distr in H. cbn [rev app] in H.
  apply (lstrip_by_head _ H).
Qed.

Lemma strip_by_id s :
  Forall (fun c => f c = false) s -> Str.strip_by f s = s.
Proof.
  intros H. unfold Str.strip_by, Str.rstrip_by.
  rewrite (lstrip_by_id H), lstrip_by_id.
  - apply rev_involutive.
  - apply Forall_rev. exact H.
Qed.

Lemma strip_by_id_app s t :
  Forall (fun c => f c = false) s -> Forall (fun c => f c = true) t ->
  Str.strip_by f (s ++ t) = s.
Proof.
  intros Hs Ht. unfold Str.strip_by, Str.rstrip_by.
  assert (L : forall t u, Forall (fun c => f c = true) t ->
                Str.lstrip_by f (t ++ u) = Str.lstrip_by f u).
  { induction 1 as [|a t' Ha _ IH]; cbn [app Str.lstrip_by];
      [reflexivity|]. rewrite Ha. exact IH. }
  destruct Hs as [|a s Ha Hs].
  - cbn [app]. rewrite <- (app_nil_r t) at 1. rewrite L by exact Ht.
    reflexivity.
  - cbn [app Str.lstrip_by]. rewrite Ha.
    change (a :: s ++ t) with ((a :: s) ++ t).
    rewrite rev_app_distr, L by (apply Forall_rev; exact Ht).
    rewrite lstrip_by_id.
    + apply rev_involutive.
    + apply Forall_rev. constructor; assumption.
Qed.
End StripFacts.

Lemma replace_from_absent (old new s : str) :
  Str.contains old s = false -> Str.replace_from old new 0 s = s.
Proof.
  induction s as [|c s IH]; [reflexivity|].
  cbn [Str.contains Str.replace_from]. intros H.
  apply orb_false_iff in H as [H1 H2].
  rewrite H1, IH by exact H2. reflexivity.
Qed.

Lemma replace_absent (old new s : str) :
  Str.contains old s = false -> old <> [] -> Str.replace old new s = s.
Proof.
  intros H Hne. destruct old as [|a old]; [congruence|].
  apply replace_from_absent. exact H.
Qed.

Lemma count_occ_substring (needle s : str) c :
  Substring needle s ->
  (count_occ N.eq_dec needle c <= count_occ N.eq_dec s c)%nat.
Proof.
  intros (pre & post & ->). rewrite !count_occ_app. lia.
Qed.

Lemma one_slash_no_scheme (s : str) :
  (count_occ N.eq_dec s 47%N <= 1)%nat ->
  Str.contains (lit "https://") s = false /\
  Str.contains (lit "http://") s = false.
Proof.
  intros H. split.
  - destruct (Str.contains (lit "https://") s) eqn:E; [|reflexivity].
    apply contains_spec in E.
    apply (@count_occ_substring _ _ 47%N) in E.
    change (count_occ N.eq_dec (lit "https://") 47%N) with 2%nat in E. lia.
  - destruct (Str.contains (lit "http://") s) eqn:E; [|reflexivity].
    apply contains_spec in E.
    apply (@count_occ_substring _ _ 47%N) in E.
    change (count_occ N.eq_dec (lit "http://") 47%N) with 2%nat in E. lia.
Qed.

Lemma domain_of_one_slash (d tail : str) :
  ~ In 47%N d -> In tail [[]; lit "/"] ->
  Str.strip_chars (lit "/")
    (Str.replace (lit "http://") [] (Str.replace (lit "https://") []
       (d ++ tail))) = d
  /\ Str.strip_chars (lit "/")
       (Str.replace (lit "http://") [] (d ++ tail)) = d.
Proof.
  intros Hd Ht.
  assert (Hc : (count_occ N.eq_dec (d ++ tail) 47%N <= 1)%nat).
  { rewrite count_occ_app.
    rewrite (proj1 (count_occ_not_In N.eq_dec d 47%N) Hd).
    destruct Ht as [<-|[<-|[]]]; vm_compute; lia. }
  destruct (one_slash_no_scheme _ Hc) as [H1 H2].
  rewrite (@replace_absent (lit "https://") [] _ H1 ltac:(discriminate)).
  rewrite (@replace_absent (lit "http://") [] _ H2 ltac:(discriminate)).
  assert (G : Str.strip_chars (lit "/") (d ++ tail) = d).
  { unfold Str.strip_chars. apply strip_by_id_app.
    - apply Forall_forall. intros c Hin. cbn [existsb lit].
      change (existsb (N.eqb c) (lit "/")) with (N.eqb c 47 || false).
      rewrite orb_false_r. apply N.eqb_neq. intros ->. exact (Hd Hin).
    - destruct Ht as [<-|[<-|[]]]; repeat constructor. }
  split; exact G.
Qed.

(** X15.  The domain of a plain address.  For a text [d] without a slash, the
    domain [main] scans for [d] itself, for [d] after [http://] or
    [https://], and for any of these followed by one slash, is [d]. *)
Theorem domain_of_address (d scheme tail : str) :
  ~ In 47%N d ->
  In scheme [[]; lit "http://"; lit "https://"] ->
  In tail [[]; lit "/"] ->
  domain_of (scheme ++ d ++ tail) = d.
Proof.
  intros Hd Hs Ht. unfold domain_of.
  destruct (domain_of_one_slash _ Hd Ht) as [G1 G2].
  destruct Hs as [<-|[<-|[<-|[]]]].
  - exact G1.
  - assert (E : Str.replace (lit "https://") [] (lit "http://" ++ d ++ tail)
                = lit "http://" ++ Str.replace (lit "https://") [] (d ++ tail))
      by reflexivity.
    rewrite E.
    assert (Hc : (count_occ N.eq_dec (d ++ tail) 47%N <= 1)%nat).
    { rewrite count_occ_app.
      rewrite (proj1 (count_occ_not_In N.eq_dec d 47%N) Hd).
      destruct Ht as [<-|[<-|[]]]; vm_compute; lia. }
    destruct (one_slash_no_scheme _ Hc) as [H1 H2].
    rewrite (@replace_absent (lit "https://") [] _ H1 ltac:(discriminate)).
    assert (E2 : Str.replace (lit "http://") [] (lit "http://" ++ d ++ tail)
                 = Str.replace (lit "http://") [] (d ++ tail))
      by reflexivity.
    rewrite E2. exact G2.
  - assert (E : Str.replace (lit "https://") [] (lit "https://" ++ d ++ tail)
                = Str.replace (lit "https://") [] (d ++ tail))
      by reflexivity.
    rewrite E. exact G1.
Qed.

Lemma domain_of_address_witness :
  domain_of (lit "https://" ++ lit "example.com" ++ lit "/")
  = lit "example.com".
Proof.
  apply domain_of_address.
  - vm_compute. intros H.
    repeat (destruct H as [H|H]; [discriminate|]). exact H.
  - right; right; left; reflexivity.
  - right; left; reflexivity.
Defined.

(** X16.  The domain [main] scans neither begins nor ends with a slash,
    whatever the argument. *)
Theorem domain_of_no_outer_slash (arg rest : str) :
  domain_of arg <> lit "/" ++ rest /\ domain_of arg <> rest ++ lit "/".
Proof.
  unfold domain_of, Str.strip_chars. split; intros H.
  - apply strip_by_head in H. vm_compute in H. discriminate.
  - apply strip_by_last in H. vm_compute in H. discriminate.
Qed.
